(** * imgConvert: the conversion queue of the [Converter] component

    A shallow embedding of [src/components/Converter.tsx] (per-file state,
    [convertFile], [handleConvertAll], [downloadAll], the keyboard handler)
    and of the part of [src/App.tsx] that mounts and clears the batch.

    The component is written against two collaborators that are not part
    of the repository: the [@ffmpeg/ffmpeg] engine and the browser's
    object-URL registry.  Both are modelled as explicit state; the engine
    additionally carries the replies the environment will give, so that
    a theorem about every engine state is about every engine behaviour. *)

From Stdlib Require Import Ascii.
From stdpp Require Import base strings list gmap pretty.
From Stdlib.Init Require Import Byte.

Open Scope string_scope.
Open Scope list_scope.

(** ** JavaScript string helpers used by the component *)

Module Js.

(** [/\s/] on code units below 256: tab, line feed, vertical tab, form
    feed, carriage return, space and no-break space. *)
Definition is_space (c : Ascii.ascii) : bool :=
  let n := Ascii.nat_of_ascii c in
  (Nat.leb 9 n && Nat.leb n 13) || Nat.eqb n 32 || Nat.eqb n 160.

(** [s.replace(/\s/g, '_')] *)
Fixpoint replace_spaces (s : string) : string :=
  match s with
  | EmptyString => EmptyString
  | String c s' =>
      String (if is_space c then "_"%char else c) (replace_spaces s')
  end.

(** [s.split(sep)] for a one-character separator: the pieces between
    the separators, in order; never the empty array. *)
Fixpoint split (sep : Ascii.ascii) (s : string) : list string :=
  match s with
  | EmptyString => [EmptyString]
  | String c s' =>
      if Ascii.eqb c sep then EmptyString :: split sep s'
      else match split sep s' with
           | [] => [String c EmptyString]
           | piece :: pieces => String c piece :: pieces
           end
  end.

(** [a[0]] on an array of strings, [undefined] rendered as the empty
    string (never taken on the result of [split]). *)
Definition first (a : list string) : string := hd EmptyString a.

(** [s.toLowerCase()] on the letters A-Z. *)
Definition lower (c : Ascii.ascii) : Ascii.ascii :=
  let n := Ascii.nat_of_ascii c in
  if Nat.leb 65 n && Nat.leb n 90 then Ascii.ascii_of_nat (n + 32) else c.

Fixpoint toLowerCase (s : string) : string :=
  match s with
  | EmptyString => EmptyString
  | String c s' => String (lower c) (toLowerCase s')
  end.

(** A string is truthy when it is not empty. *)
Definition truthy (s : string) : bool := negb (String.eqb s "").

End Js.

(** ** Data model (Converter.tsx, lines 13-21) *)

Abbreviation bytes := (list byte).

(** A [File]: its display name and what [fetchFile] yields for it
    ([None] when the blob can no longer be read and [fetchFile] rejects). *)
Record File := { name : string; content : option bytes }.

Inductive FileStatus := Idle | Converting | Done | Error.
Inductive TargetFormat := png | jpeg | webp.

#[global] Instance FileStatus_eq_dec : EqDecision FileStatus.
Proof. solve_decision. Defined.
#[global] Instance TargetFormat_eq_dec : EqDecision TargetFormat.
Proof. solve_decision. Defined.

(** The union members are their own spelling: [`.${targetFormat}`]. *)
Definition format_text (f : TargetFormat) : string :=
  match f with png => "png" | jpeg => "jpeg" | webp => "webp" end.

Record FileState := {
  file : File;
  status : FileStatus;
  outputUrl : option string;
  error : option string
}.

(** ** The engine *)

(** Modelled from the spec: the Engine Handle ([@ffmpeg/ffmpeg], which is
    not part of the repository), after its contract in section 6.  The
    engine owns a virtual file system.  Each operation consults the next
    reply the environment has scheduled for that kind of operation:
    [Normal] follows the contract (reading or deleting an absent name
    fails, executing on an absent input or a rejected input fails),
    [Fails] throws without effect, [FailsLate] throws after the effect
    has taken place.  An exhausted schedule means [Normal]. *)
Inductive Reply := Normal | Fails | FailsLate.

Inductive Op :=
| OpWrite (n : string)
| OpExec (cmd : list string)
| OpRead (n : string)
| OpDelete (n : string).

Inductive JsError := FetchError | EngineIOError | EngineExecutionError.

(** Modelled from the spec: the Engine Handle's state - its virtual
    files, its codec, the replies still to come and, for the proofs, the
    log of the operations it was asked to do. *)
Record FFmpeg := {
  vfs : gmap string bytes;
  codec : string → bytes → option bytes;
  write_replies : list Reply;
  exec_replies : list Reply;
  read_replies : list Reply;
  delete_replies : list Reply;
  ops : list Op
}.

Inductive Result (A : Type) := Ok (a : A) | Throw (e : JsError).
Arguments Ok {A} a.
Arguments Throw {A} e.

Definition next_reply (rs : list Reply) : Reply * list Reply :=
  match rs with [] => (Normal, []) | r :: rs' => (r, rs') end.

Module Engine.

(** Modelled from the spec: [writeVirtualFile(name, bytes)], which may
    fail with EngineIOError. *)
Definition writeFile (n : string) (b : bytes) (e : FFmpeg) : FFmpeg * Result unit :=
  let '(r, rs) := next_reply (write_replies e) in
  let written := <[n := b]> (vfs e) in
  let e' v := {| vfs := v; codec := codec e; write_replies := rs;
                 exec_replies := exec_replies e; read_replies := read_replies e;
                 delete_replies := delete_replies e;
                 ops := ops e ++ [OpWrite n] |} in
  match r with
  | Normal => (e' written, Ok tt)
  | Fails => (e' (vfs e), Throw EngineIOError)
  | FailsLate => (e' written, Throw EngineIOError)
  end.

(** Modelled from the spec: what a run of [-i input output] does to the
    file system when the engine gets as far as producing output (single
    input, single output, format inferred from the output name). *)
Definition transcode (cmd : list string) (e : FFmpeg) : option (gmap string bytes) :=
  match cmd with
  | [flag; input; output] =>
      if String.eqb flag "-i" then
        match vfs e !! input with
        | Some b =>
            match codec e output b with
            | Some out => Some (<[output := out]> (vfs e))
            | None => None
            end
        | None => None
        end
      else None
  | _ => None
  end.

(** Modelled from the spec: [execute(command)], which fails with
    EngineExecutionError if the command is malformed or the codec rejects
    the input. *)
Definition exec (cmd : list string) (e : FFmpeg) : FFmpeg * Result unit :=
  let '(r, rs) := next_reply (exec_replies e) in
  let e' v := {| vfs := v; codec := codec e; write_replies := write_replies e;
                 exec_replies := rs; read_replies := read_replies e;
                 delete_replies := delete_replies e;
                 ops := ops e ++ [OpExec cmd] |} in
  match r, transcode cmd e with
  | Normal, Some v => (e' v, Ok tt)
  | FailsLate, Some v => (e' v, Throw EngineExecutionError)
  | _, _ => (e' (vfs e), Throw EngineExecutionError)
  end.

(** Modelled from the spec: [readVirtualFile(name)], which fails with
    EngineIOError if the name is absent. *)
Definition readFile (n : string) (e : FFmpeg) : FFmpeg * Result bytes :=
  let '(r, rs) := next_reply (read_replies e) in
  let e' := {| vfs := vfs e; codec := codec e; write_replies := write_replies e;
               exec_replies := exec_replies e; read_replies := rs;
               delete_replies := delete_replies e;
               ops := ops e ++ [OpRead n] |} in
  match r, vfs e !! n with
  | Normal, Some b => (e', Ok b)
  | _, _ => (e', Throw EngineIOError)
  end.

(** Modelled from the spec: [deleteVirtualFile(name)], which fails with
    EngineIOError if the name is absent. *)
Definition deleteFile (n : string) (e : FFmpeg) : FFmpeg * Result unit :=
  let '(r, rs) := next_reply (delete_replies e) in
  let e' v := {| vfs := v; codec := codec e; write_replies := write_replies e;
                 exec_replies := exec_replies e; read_replies := read_replies e;
                 delete_replies := rs;
                 ops := ops e ++ [OpDelete n] |} in
  match r, vfs e !! n with
  | Normal, Some _ => (e' (delete n (vfs e)), Ok tt)
  | FailsLate, Some _ => (e' (delete n (vfs e)), Throw EngineIOError)
  | _, _ => (e' (vfs e), Throw EngineIOError)
  end.

End Engine.

(** ** The browser's object-URL registry

    Part of the platform, not of the repository: [URL.createObjectURL]
    registers the blob under a fresh URL, and the blob stays alive until
    [URL.revokeObjectURL] removes the entry. *)

Record Blob := { blob_data : bytes; blob_type : string }.

Record Browser := {
  ffmpeg : FFmpeg;
  blobStore : gmap string Blob;
  blobCount : nat
}.

(** ** The component's state (lines 24-28) and the world it runs in *)

Record ConverterState := {
  fileStates : list FileState;
  targetFormat : TargetFormat;
  isConverting : bool
}.

Record World := { conv : ConverterState; env : Browser }.

(** ** Asynchronous code as a state-and-exception monad *)

Definition M (A : Type) : Type := World → World * Result A.

#[global] Instance M_ret : MRet M := λ A a w, (w, Ok a).
#[global] Instance M_bind : MBind M := λ A B f m w,
  match m w with
  | (w', Ok a) => f a w'
  | (w', Throw e) => (w', Throw e)
  end.

(** [try { body } catch (err) { handler }] *)
Definition try_catch {A} (body : M A) (handler : JsError → M A) : M A := λ w,
  match body w with
  | (w', Ok a) => (w', Ok a)
  | (w', Throw e) => handler e w'
  end.

(** [try { body } finally { cleanup }] *)
Definition try_finally {A} (body : M A) (cleanup : M unit) : M A := λ w,
  let '(w1, r) := body w in
  match cleanup w1 with
  | (w2, Ok _) => (w2, r)
  | (w2, Throw e) => (w2, Throw e)
  end.

(** Lifting an engine call. *)
Definition on_engine {A} (op : FFmpeg → FFmpeg * Result A) : M A := λ w,
  let '(e', r) := op (ffmpeg (env w)) in
  ({| conv := conv w;
      env := {| ffmpeg := e'; blobStore := blobStore (env w);
                blobCount := blobCount (env w) |} |}, r).

(** [await fetchFile(file)] *)
Definition fetchFile (f : File) : M bytes := λ w,
  match content f with
  | Some b => (w, Ok b)
  | None => (w, Throw FetchError)
  end.

(** The URL the next [createObjectURL] will hand out. *)
Definition next_url (b : Browser) : string := "blob:" +:+ pretty (blobCount b).

(** [URL.createObjectURL(blob)] *)
Definition createObjectURL (b : Blob) : M string := λ w,
  let url := next_url (env w) in
  ({| conv := conv w;
      env := {| ffmpeg := ffmpeg (env w);
                blobStore := <[url := b]> (blobStore (env w));
                blobCount := S (blobCount (env w)) |} |}, Ok url).

(** [setFileStates(prev => update(prev))] *)
Definition setFileStates (update : list FileState → list FileState) : M unit := λ w,
  ({| conv := {| fileStates := update (fileStates (conv w));
                 targetFormat := targetFormat (conv w);
                 isConverting := isConverting (conv w) |};
      env := env w |}, Ok tt).

Definition setIsConverting (b : bool) : M unit := λ w,
  ({| conv := {| fileStates := fileStates (conv w);
                 targetFormat := targetFormat (conv w);
                 isConverting := b |};
      env := env w |}, Ok tt).

Definition setTargetFormat (f : TargetFormat) : M unit := λ w,
  ({| conv := {| fileStates := fileStates (conv w);
                 targetFormat := f;
                 isConverting := isConverting (conv w) |};
      env := env w |}, Ok tt).

(** [const next = [...prev]; next[index] = change(next[index]); return next].
    Every call site passes an index of the rendered list, whose length
    never changes while the component is mounted; beyond the end (where
    JavaScript would grow the array) the list is left as it is. *)
Definition assign_at (index : nat) (change : FileState → FileState)
    (prev : list FileState) : list FileState :=
  match prev !! index with
  | Some s => <[index := change s]> prev
  | None => prev
  end.

Definition mark_converting (s : FileState) : FileState :=
  {| file := file s; status := Converting; outputUrl := outputUrl s; error := None |}.
Definition mark_done (url : string) (s : FileState) : FileState :=
  {| file := file s; status := Done; outputUrl := Some url; error := error s |}.
Definition mark_error (s : FileState) : FileState :=
  {| file := file s; status := Error; outputUrl := outputUrl s;
     error := Some "Conversion failed" |}.

(** ** convertFile (lines 30-80) *)

Definition inputName (index : nat) (fileState : FileState) : string :=
  "input_" +:+ pretty index +:+ "_" +:+ Js.replace_spaces (name (file fileState)).

Definition outputName (index : nat) (fmt : TargetFormat) : string :=
  "output_" +:+ pretty index +:+ "." +:+ format_text fmt.

(** The [try { ... } catch (err) { ... }] block. *)
Definition attempt (fmt : TargetFormat) (fileState : FileState) (index : nat) : M unit :=
  try_catch
    (setFileStates (assign_at index mark_converting);;
     data ← fetchFile (file fileState);
     on_engine (Engine.writeFile (inputName index fileState) data);;
     on_engine (Engine.exec ["-i"; inputName index fileState; outputName index fmt]);;
     data ← on_engine (Engine.readFile (outputName index fmt));
     url ← createObjectURL {| blob_data := data;
                              blob_type := "image/" +:+ format_text fmt |};
     setFileStates (assign_at index (mark_done url));;
     on_engine (Engine.deleteFile (outputName index fmt)))
    (λ err, setFileStates (assign_at index mark_error)).

(** The [finally { try { ... } catch { } }] block. *)
Definition cleanup (fileState : FileState) (index : nat) : M unit :=
  try_catch
    (on_engine (Engine.deleteFile (inputName index fileState)))
    (λ _, mret tt).

Definition convertFile (fmt : TargetFormat) (fileState : FileState) (index : nat) : M unit :=
  try_finally (attempt fmt fileState index) (cleanup fileState index).

(** The engine's side of the [try] block: the awaited engine calls in
    order, each on the engine as its predecessor left it, up to the
    first one that throws; and which step that was, if any. *)
Inductive Outcome :=
| FetchThrew | WriteThrew | ExecThrew | ReadThrew | DeleteThrew | Converted.

#[global] Instance Outcome_eq_dec : EqDecision Outcome.
Proof. solve_decision. Defined.




Definition engine_steps (fmt : TargetFormat) (fileState : FileState) (index : nat)
    (e : FFmpeg) : FFmpeg * Outcome :=
  match content (file fileState) with
  | None => (e, FetchThrew)
  | Some data =>
      match Engine.writeFile (inputName index fileState) data e with
      | (e1, Throw _) => (e1, WriteThrew)
      | (e1, Ok _) =>
          match Engine.exec ["-i"; inputName index fileState; outputName index fmt] e1 with
          | (e2, Throw _) => (e2, ExecThrew)
          | (e2, Ok _) =>
              match Engine.readFile (outputName index fmt) e2 with
              | (e3, Throw _) => (e3, ReadThrew)
              | (e3, Ok _) =>
                  match Engine.deleteFile (outputName index fmt) e3 with
                  | (e4, Throw _) => (e4, DeleteThrew)
                  | (e4, Ok _) => (e4, Converted)
                  end
              end
          end
      end
  end.

Definition outcome (fmt : TargetFormat) (fileState : FileState) (index : nat)
    (e : FFmpeg) : Outcome :=
  (engine_steps fmt fileState index e).2.

(** The net change the [try]/[catch] block makes to its record. *)
Definition net_change (o : Outcome) (url : string) : FileState → FileState :=
  match o with
  | Converted => mark_done url ∘ mark_converting
  | DeleteThrew => mark_error ∘ mark_done url ∘ mark_converting
  | _ => mark_error ∘ mark_converting
  end.

(** ** handleConvertAll (lines 82-90)

    The callback closes over the [fileStates] and [targetFormat] of the
    render it was created in: the loop tests and passes the rendered
    records, while every [setFileStates] acts on the current state. *)

Fixpoint convert_from (fmt : TargetFormat) (rendered : list FileState) (i : nat) : M unit :=
  match rendered with
  | [] => mret tt
  | s :: rest =>
      (if decide (status s ≠ Done) then convertFile fmt s i else mret tt);;
      convert_from fmt rest (S i)
  end.

Definition handleConvertAll : M unit := λ w,
  (setIsConverting true;;
   convert_from (targetFormat (conv w)) (fileStates (conv w)) 0;;
   setIsConverting false) w.

(** ** downloadAll (lines 92-103) and the per-record link (lines 225-234) *)

(** One anchor: [href] and [download]. *)
Record Link := { href : string; download : string }.

Definition download_name (s : FileState) (fmt : TargetFormat) : string :=
  Js.first (Js.split "." (name (file s))) +:+ "." +:+ format_text fmt.

(** The anchors [downloadAll] creates and clicks, in order. *)
Definition downloadAll (w : World) : list Link :=
  omap (λ s,
      match outputUrl s with
      | Some url =>
          if Js.truthy url && bool_decide (status s = Done)
          then Some {| href := url; download := download_name s (targetFormat (conv w)) |}
          else None
      | None => None
      end)
    (fileStates (conv w)).

(** The anchor rendered next to record [i], if any ([href] is left out
    of the element when [outputUrl] is undefined). *)
Definition record_link (w : World) (i : nat) : option (option string * string) :=
  match fileStates (conv w) !! i with
  | Some s =>
      if bool_decide (status s = Done)
      then Some (outputUrl s, download_name s (targetFormat (conv w)))
      else None
  | None => None
  end.

(** ** The component under the event loop

    [handleConvertAll] is asynchronous: it runs until its next [await]
    and is resumed later, and other handlers may run in between.  A
    started call is a [Call]: the values its closure captured, the loop
    position, and the operation it is waiting for. *)

Inductive Stage :=
| Fetching                (* await fetchFile(file) *)
| Writing (data : bytes)  (* await ffmpeg.writeFile(inputName, data) *)
| Executing               (* await ffmpeg.exec(cmd) *)
| Reading                 (* await ffmpeg.readFile(outputName) *)
| DeletingOutput          (* await ffmpeg.deleteFile(outputName) *)
| CleaningUp.             (* await ffmpeg.deleteFile(inputName), in finally *)

Inductive Call :=
| Running (fmt : TargetFormat) (fileState : FileState) (index : nat)
    (rest : list FileState) (stage : Stage)
| Finished.

Definition is_running (t : Call) : bool :=
  match t with Running _ _ _ _ _ => true | Finished => false end.

(** The [for] loop from index [i] up to its next [await], or to its end. *)
Fixpoint enter (fmt : TargetFormat) (rendered : list FileState) (i : nat)
    (w : World) : World * Call :=
  match rendered with
  | [] => ((setIsConverting false w).1, Finished)
  | s :: rest =>
      if decide (status s ≠ Done)
      then ((setFileStates (assign_at i mark_converting) w).1,
            Running fmt s i rest Fetching)
      else enter fmt rest (S i) w
  end.

(** The awaited operation settles and the call runs to its next [await]. *)
Definition resume (fmt : TargetFormat) (s : FileState) (i : nat)
    (rest : list FileState) (stage : Stage) (w : World) : World * Call :=
  let caught (w' : World) :=
    ((setFileStates (assign_at i mark_error) w').1, Running fmt s i rest CleaningUp) in
  match stage with
  | Fetching =>
      match fetchFile (file s) w with
      | (w', Ok data) => (w', Running fmt s i rest (Writing data))
      | (w', Throw _) => caught w'
      end
  | Writing data =>
      match on_engine (Engine.writeFile (inputName i s) data) w with
      | (w', Ok _) => (w', Running fmt s i rest Executing)
      | (w', Throw _) => caught w'
      end
  | Executing =>
      match on_engine (Engine.exec ["-i"; inputName i s; outputName i fmt]) w with
      | (w', Ok _) => (w', Running fmt s i rest Reading)
      | (w', Throw _) => caught w'
      end
  | Reading =>
      match on_engine (Engine.readFile (outputName i fmt)) w with
      | (w', Ok data) =>
          match (url ← createObjectURL {| blob_data := data;
                                          blob_type := "image/" +:+ format_text fmt |};
                 setFileStates (assign_at i (mark_done url))) w' with
          | (w'', Ok _) => (w'', Running fmt s i rest DeletingOutput)
          | (w'', Throw _) => caught w''
          end
      | (w', Throw _) => caught w'
      end
  | DeletingOutput =>
      match on_engine (Engine.deleteFile (outputName i fmt)) w with
      | (w', Ok _) => (w', Running fmt s i rest CleaningUp)
      | (w', Throw _) => caught w'
      end
  | CleaningUp =>
      enter fmt rest (S i) (on_engine (Engine.deleteFile (inputName i s)) w).1
  end.

Record System := {
  world : World;
  calls : list Call;
  clicked : list Link      (* anchors clicked by downloadAll so far *)
}.

(** The events of one mounted Converter.  The clear button and the
    mounting of the next Converter are events of the page ([PageEvent]). *)
Inductive Event :=
| KeyDown (typing shiftKey : bool) (key : string)  (* window keydown *)
| ClickConvert                                     (* the convert button *)
| ClickDownloadAll                                 (* the download-all button *)
| SelectFormat (f : TargetFormat)                  (* the format select *)
| Settle (t : nat).                                (* call t's awaited operation settles *)

(** A call of [handleConvertAll]: the closure of the current render. *)
Definition start_convert_all (sys : System) : System :=
  let w := world sys in
  let '(w', t) := enter (targetFormat (conv w)) (fileStates (conv w)) 0
                    (setIsConverting true w).1 in
  {| world := w'; calls := calls sys ++ [t]; clicked := clicked sys |}.

Definition call_downloadAll (sys : System) : System :=
  {| world := world sys; calls := calls sys;
     clicked := clicked sys ++ downloadAll (world sys) |}.

Definition call_setTargetFormat (f : TargetFormat) (sys : System) : System :=
  {| world := (setTargetFormat f (world sys)).1; calls := calls sys;
     clicked := clicked sys |}.

(** handleKeyDown (lines 115-128) *)
Definition handleKeyDown (typing shiftKey : bool) (key : string) (sys : System) : System :=
  if typing then sys
  else if shiftKey then
    let k := Js.toLowerCase key in
    if String.eqb k "j" then call_setTargetFormat jpeg sys
    else if String.eqb k "p" then call_setTargetFormat png sys
    else if String.eqb k "w" then call_setTargetFormat webp sys
    else if String.eqb k "c" then start_convert_all sys
    else if String.eqb k "d" then call_downloadAll sys
    else sys
  else sys.

Definition all_done (l : list FileState) : bool :=
  forallb (λ s, bool_decide (status s = Done)) l.
Definition some_done (l : list FileState) : bool :=
  existsb (λ s, bool_decide (status s = Done)) l.

Definition react (ev : Event) (sys : System) : System :=
  let c := conv (world sys) in
  match ev with
  | KeyDown typing shiftKey key => handleKeyDown typing shiftKey key sys
  | ClickConvert =>
      (* disabled={isConverting || fileStates.every(s => s.status === 'done')} *)
      if isConverting c || all_done (fileStates c) then sys else start_convert_all sys
  | ClickDownloadAll =>
      (* rendered only when fileStates.some(s => s.status === 'done') *)
      if some_done (fileStates c) then call_downloadAll sys else sys
  | SelectFormat f =>
      (* disabled={isConverting} *)
      if isConverting c then sys else call_setTargetFormat f sys
  | Settle t =>
      match calls sys !! t with
      | Some (Running fmt s i rest stage) =>
          let '(w', call') := resume fmt s i rest stage (world sys) in
          {| world := w'; calls := <[t := call']> (calls sys); clicked := clicked sys |}
      | _ => sys
      end
  end.

Definition run (evs : list Event) (sys : System) : System :=
  foldl (λ sys ev, react ev sys) sys evs.

(** Conversions in flight: started calls that have not returned. *)
Definition running_count (l : list Call) : nat :=
  length (List.filter is_running l).

Definition in_flight (sys : System) : nat := running_count (calls sys).

(** At most one call in flight, and none unless [isConverting] is set. *)
Definition exclusive (sys : System) : Prop :=
  (in_flight sys ≤ 1)%nat ∧
  (isConverting (conv (world sys)) = false → in_flight sys = 0).

(** ** App.tsx: selecting and clearing the batch (lines 10-19, 121-125) *)

Record App := {
  files : list File;
  mounted : option ConverterState;   (* the Converter instance, while rendered *)
  browser : Browser
}.

Inductive View := DropzoneView | ConverterView.

(** [files.length === 0 ? <Dropzone/> : <Converter files={files}/>] *)
Definition main_view (a : App) : View :=
  match files a with [] => DropzoneView | _ => ConverterView end.

(** useState initialisers of a newly mounted Converter. *)
Definition initial_state (fs : list File) : ConverterState :=
  {| fileStates := (λ file, {| file := file; status := Idle; outputUrl := None; error := None |}) <$> fs;
     targetFormat := png;
     isConverting := false |}.

(** What React keeps of the Converter after [files] changed. *)
Definition reconcile (fs : list File) (prev : option ConverterState) : option ConverterState :=
  match fs, prev with
  | [], _ => None
  | _, Some c => Some c
  | _, None => Some (initial_state fs)
  end.

Definition handleFilesSelected (newFiles : list File) (a : App) : App :=
  {| files := newFiles; mounted := reconcile newFiles (mounted a); browser := browser a |}.

Definition clearFiles (a : App) : App :=
  {| files := []; mounted := reconcile [] (mounted a); browser := browser a |}.

(** Running a Converter handler inside the App. *)
Definition in_converter (handler : M unit) (a : App) : App :=
  match mounted a with
  | Some c =>
      let w := (handler {| conv := c; env := browser a |}).1 in
      {| files := files a; mounted := Some (conv w); browser := env w |}
  | None => a
  end.

(** Output payloads still held by the browser. *)
Definition registered (url : string) (b : Browser) : Prop := is_Some (blobStore b !! url).

(** The statuses of the batch before the first event and after each one. *)
Fixpoint statuses_along (evs : list Event) (sys : System) : list (list FileStatus) :=
  (status <$> fileStates (conv (world sys))) ::
  match evs with
  | [] => []
  | ev :: rest => statuses_along rest (react ev sys)
  end.

(** A freshly rendered Converter, nothing started. *)
Definition system_of (w : World) : System :=
  {| world := w; calls := []; clicked := [] |}.

(** Shift+C outside any text field. *)
Definition shift_c : Event := KeyDown false true "C".

(** One call on its own: its awaited operation settles. *)
Definition settle (p : World * Call) : World * Call :=
  match p.2 with
  | Running fmt s i rest stage => resume fmt s i rest stage p.1
  | Finished => p
  end.

Fixpoint settle_n (n : nat) (p : World * Call) : World * Call :=
  match n with
  | 0 => p
  | S n' => settle_n n' (settle p)
  end.

(** The key events that reach [handleConvertAll]. *)
Definition starts_by_key (ev : Event) : bool :=
  match ev with
  | KeyDown typing shiftKey key =>
      negb typing && shiftKey && String.eqb (Js.toLowerCase key) "c"
  | _ => false
  end.

(** The rendered records a call of handleConvertAll converts, with
    their indices, in order. *)
Fixpoint pending (i : nat) (rendered : list FileState) : list (nat * FileState) :=
  match rendered with
  | [] => []
  | s :: rest =>
      if decide (status s ≠ Done) then (i, s) :: pending (S i) rest
      else pending (S i) rest
  end.


(** Decimal digits, as [`${index}`] produces them. *)
Definition is_digit (c : Ascii.ascii) : bool :=
  Nat.leb 48 (Ascii.nat_of_ascii c) && Nat.leb (Ascii.nat_of_ascii c) 57.

Fixpoint digits (s : string) : bool :=
  match s with
  | EmptyString => true
  | String c s' => is_digit c && digits s'
  end.

(** The world in which the loop of [handleConvertAll], called in [w],
    reaches index [i]. *)
Definition reached (w : World) (i : nat) : World :=
  (convert_from (targetFormat (conv w)) (take i (fileStates (conv w))) 0
     (setIsConverting true w).1).1.

(** The steps of the try block before the output is stored on the record. *)
Definition before_done (o : Outcome) : Prop :=
  o = FetchThrew ∨ o = WriteThrew ∨ o = ExecThrew ∨ o = ReadThrew.

(** The record invariant of the data model, and its transition relation. *)
Definition consistent (s : FileState) : Prop :=
  (is_Some (outputUrl s) ↔ status s = Done) ∧ (is_Some (error s) ↔ status s = Error).

Definition may_follow (a b : FileStatus) : bool :=
  match a, b with
  | Idle, Converting | Converting, Done | Converting, Error | Error, Converting => true
  | _, _ => false
  end.

(** No entry of the virtual file system is left from a call of convertFile. *)
Definition no_leftover (fmt : TargetFormat) (s : FileState) (i : nat) (w : World) : Prop :=
  let v := vfs (ffmpeg (env (convertFile fmt s i w).1)) in
  v !! inputName i s = None ∧ v !! outputName i fmt = None.

(** The spec's wording of the base name, for comparison with
    [download_name]: "its display name with the extension stripped", the
    extension being what follows the last dot. *)
Definition join_dots (pieces : list string) : string :=
  match pieces with
  | [] => ""
  | p :: ps => foldl (λ acc q, acc +:+ "." +:+ q) p ps
  end.

Definition spec_base_name (n : string) : string :=
  match removelast (Js.split "." n) with
  | [] => n
  | pieces => join_dots pieces
  end.

(** The output URLs held by the records of the mounted Converter. *)
Definition output_urls (a : App) : list string :=
  omap outputUrl (default [] (fileStates <$> mounted a)).

(** Clearing releases every output payload of the batch. *)
Definition clear_releases (a : App) : Prop :=
  ∀ url, url ∈ output_urls a → ¬ registered url (browser (clearFiles a)).

(** ** Sample data *)

Definition plain_engine : FFmpeg :=
  {| vfs := ∅; codec := λ _ b, Some b;
     write_replies := []; exec_replies := []; read_replies := []; delete_replies := [];
     ops := [] |}.

Definition fresh_browser (e : FFmpeg) : Browser :=
  {| ffmpeg := e; blobStore := ∅; blobCount := 0 |}.

Definition photo : File := {| name := "photo.HEIC.jpg"; content := Some [x89; x50] |}.

Definition one_photo (e : FFmpeg) : World :=
  {| conv := initial_state [photo]; env := fresh_browser e |}.

Definition idle (f : File) : FileState :=
  {| file := f; status := Idle; outputUrl := None; error := None |}.

(** An engine whose codec copies, with the given replies to exec and to
    deleteFile. *)
Definition engine_replying (execs deletes : list Reply) : FFmpeg :=
  {| vfs := ∅; codec := λ _ b, Some b;
     write_replies := []; exec_replies := execs; read_replies := [];
     delete_replies := deletes; ops := [] |}.

Definition three_files : list File :=
  [ {| name := "a.jpg"; content := Some [x01] |};
    {| name := "b b.jpg"; content := Some [x02] |};
    {| name := "c.jpg"; content := Some [x03] |} ].

Definition two_files : list File :=
  [ {| name := "first.jpg"; content := Some [x01] |};
    {| name := "second.jpg"; content := Some [x02] |} ].

(** The App after photo.HEIC.jpg was selected and converted. *)
Definition converted_photo : App :=
  in_converter handleConvertAll
    (handleFilesSelected [photo]
       {| files := []; mounted := None; browser := fresh_browser plain_engine |}).

(** Scenario B: the second of three executions fails. *)
Definition scenario_b : World :=
  {| conv := initial_state three_files;
     env := fresh_browser (engine_replying [Normal; Fails; Normal] []) |}.

(** ** The Converter's controls (lines 168-179, 225-241) *)



(** [state.status === 'done' && !state.outputUrl]: the fallback check mark. *)
Definition fallback_check (s : FileState) : bool :=
  bool_decide (status s = Done) &&
  negb (match outputUrl s with Some url => Js.truthy url | None => false end).

(** The URL [createObjectURL] hands out as its [k]-th. *)
Definition blob_url (k : nat) : string := "blob:" +:+ pretty k.

(** Every output URL held by a record is a registered, non-empty URL,
    and every done record holds one. *)
Definition well_linked (w : World) : Prop :=
  ∀ s, s ∈ fileStates (conv w) →
    (status s = Done → is_Some (outputUrl s)) ∧
    (∀ url, outputUrl s = Some url → url ≠ "" ∧ registered url (env w)).

(** The anchor downloadAll makes for a record that has its URL. *)
Definition link_of (fmt : TargetFormat) (s : FileState) : Link :=
  {| href := default "" (outputUrl s); download := download_name s fmt |}.

(** Events that can only change the target format: the select, and the
    keys J, P and W with Shift outside a text field. *)
Definition format_event (ev : Event) : bool :=
  match ev with
  | SelectFormat _ => true
  | KeyDown typing shiftKey key =>
      negb typing && shiftKey &&
      (String.eqb (Js.toLowerCase key) "j" || String.eqb (Js.toLowerCase key) "p" ||
       String.eqb (Js.toLowerCase key) "w")
  | _ => false
  end.

Definition settle_event (ev : Event) : bool :=
  match ev with Settle _ => true | _ => false end.

(** ** ShortcutsModal.tsx (lines 11-19): the shortcuts it lists *)

Definition shortcuts : list (list string * string) :=
  [ (["Ctrl"; "Shift"; "C"], "Convert Images");
    (["Ctrl"; "D"], "Download All");
    (["Shift"; "J"], "Select JPG Format");
    (["Shift"; "P"], "Select PNG Format");
    (["Shift"; "W"], "Select WebP Format");
    (["Shift"; "A"], "Select AVIF Format");
    (["?"], "Toggle Shortcuts Help") ].

(** The keydown event of a listed combination pressed outside a text
    field: Shift is held if listed, the key is the last entry (the
    handlers do not read the Ctrl key). *)
Definition press (keys : list string) : Event :=
  KeyDown false (bool_decide ("Shift" ∈ keys)) (default "" (last keys)).

(** ** App.tsx: the shortcuts help (lines 11, 21-38) *)

(** handleKeyDown of App, on [showShortcuts]. *)
Definition app_handleKeyDown (typing shiftKey : bool) (key : string)
    (showShortcuts : bool) : bool :=
  let toggled :=
    if String.eqb key "?" && shiftKey
    then (if typing then showShortcuts else negb showShortcuts)
    else showShortcuts in
  if String.eqb key "Escape" then false else toggled.

(** A key event as the two window listeners see it. *)
Record Key := { typing : bool; shiftKey : bool; key : string }.

Definition app_keys (ks : list Key) (showShortcuts : bool) : bool :=
  foldl (λ show k, app_handleKeyDown (typing k) (shiftKey k) (key k) show)
    showShortcuts ks.

(** The presses that toggle the help. *)
Definition toggles_help (k : Key) : bool :=
  String.eqb (key k) "?" && shiftKey k && negb (typing k).

Definition is_escape (k : Key) : bool := String.eqb (key k) "Escape".

(** ** App.tsx: the batch under the user's commands *)

Inductive AppEvent :=
| SelectFiles (fs : list File)      (* onFilesSelected: the Dropzone, or a URL
                                       import that ends after files were dropped *)
| ClearBatch                        (* the Converter's clear button *)
| ConvertAll                        (* handleConvertAll, run to its end *)
| ChooseFormat (f : TargetFormat).  (* setTargetFormat *)

(** handleFilesSelected runs whatever is shown; the clear button and the
    Converter's handlers exist only while the Converter is shown. *)
Definition app_react (ev : AppEvent) (a : App) : App :=
  match ev, main_view a with
  | SelectFiles fs, _ => handleFilesSelected fs a
  | ClearBatch, ConverterView => clearFiles a
  | ConvertAll, ConverterView => in_converter handleConvertAll a
  | ChooseFormat f, ConverterView => in_converter (setTargetFormat f) a
  | _, _ => a
  end.

Definition app_run (evs : list AppEvent) (a : App) : App :=
  foldl (λ a ev, app_react ev a) a evs.

Definition empty_app (b : Browser) : App :=
  {| files := []; mounted := None; browser := b |}.


(** ** The page: App, the mounted Converter and the calls in flight

    The clear button is never disabled, and a call of handleConvertAll
    goes on after its Converter was unmounted: it keeps working on the
    engine and the browser, which belong to App, while React drops its
    state updates.  The calls are therefore kept in two lists. *)

Record Page := {
  page_app : App;
  page_live : list Call;      (* calls started by the mounted Converter *)
  page_stale : list Call;     (* calls started by Converters unmounted since *)
  page_clicked : list Link
}.

Inductive PageEvent :=
| InConverter (ev : Event)         (* an event of the mounted Converter *)
| SettleStale (t : nat)            (* an await of stale call t settles *)
| ClickClear                       (* the Converter's clear button (lines 139-145) *)
| FilesSelected (fs : list File).  (* onFilesSelected: the Dropzone, or a URL
                                      import that ends late *)

(** The mounted Converter [c] with its calls, as the event loop sees it. *)
Definition converter_system (c : ConverterState) (p : Page) : System :=
  {| world := {| conv := c; env := browser (page_app p) |};
     calls := page_live p; clicked := page_clicked p |}.

(** After [files] changed: when no Converter is left, the calls of the
    one that was mounted become stale. *)
Definition after_files_change (a : App) (p : Page) : Page :=
  match mounted a with
  | Some _ =>
      {| page_app := a; page_live := page_live p; page_stale := page_stale p;
         page_clicked := page_clicked p |}
  | None =>
      {| page_app := a; page_live := []; page_stale := page_stale p ++ page_live p;
         page_clicked := page_clicked p |}
  end.

Definition page_react (ev : PageEvent) (p : Page) : Page :=
  match ev with
  | InConverter ev =>
      match mounted (page_app p) with
      | Some c =>
          let sys := react ev (converter_system c p) in
          {| page_app := {| files := files (page_app p);
                            mounted := Some (conv (world sys));
                            browser := env (world sys) |};
             page_live := calls sys; page_stale := page_stale p;
             page_clicked := clicked sys |}
      | None => p
      end
  | SettleStale t =>
      match page_stale p !! t with
      | Some (Running fmt s i rest stage) =>
          (* the state updates go to a Converter that is no longer there *)
          let '(w', call') :=
            resume fmt s i rest stage
              {| conv := initial_state []; env := browser (page_app p) |} in
          {| page_app := {| files := files (page_app p);
                            mounted := mounted (page_app p);
                            browser := env w' |};
             page_live := page_live p; page_stale := <[t := call']> (page_stale p);
             page_clicked := page_clicked p |}
      | _ => p
      end
  | ClickClear =>
      match mounted (page_app p) with
      | Some _ => after_files_change (clearFiles (page_app p)) p
      | None => p
      end
  | FilesSelected fs => after_files_change (handleFilesSelected fs (page_app p)) p
  end.

Definition page_run (evs : list PageEvent) (p : Page) : Page :=
  foldl (λ p ev, page_react ev p) p evs.

Definition empty_page (b : Browser) : Page :=
  {| page_app := empty_app b; page_live := []; page_stale := []; page_clicked := [] |}.

(** Calls of handleConvertAll in flight, of whatever Converter. *)
Definition page_in_flight (p : Page) : nat :=
  running_count (page_live p) + running_count (page_stale p).


(** The event starts no call by key and does not unmount the Converter
    while one of its calls is in flight. *)
Definition keeps_guard (ev : PageEvent) (p : Page) : bool :=
  match ev with
  | InConverter e => negb (starts_by_key e)
  | ClickClear | FilesSelected [] => Nat.eqb (running_count (page_live p)) 0
  | _ => true
  end.

Fixpoint guard_kept (evs : list PageEvent) (p : Page) : bool :=
  match evs with
  | [] => true
  | ev :: rest => keeps_guard ev p && guard_kept rest (page_react ev p)
  end.

(** No stale call is in flight, and the calls of the mounted Converter
    are exclusive. *)
Definition page_exclusive (p : Page) : Prop :=
  running_count (page_stale p) = 0 ∧
  match mounted (page_app p) with
  | Some c => exclusive (converter_system c p)
  | None => page_live p = []
  end.


(** ** useFFmpeg.ts *)

Record Hook := {
  loaded : bool;
  isLoading : bool;
  loadError : option string;   (* the hook's [error] *)
  logListeners : nat           (* handlers registered by ffmpeg.on('log', ...) *)
}.

(** What a rejected [await] throws: an [Error] with its message, or
    some other value. *)
Inductive Thrown := ErrorObject (message : string) | OtherValue.

Inductive LoadOutcome := LoadResolved | LoadRejected (t : Thrown).

(** [error instanceof Error ? error.message : 'Failed to load FFmpeg engine'] *)
Definition error_text (t : Thrown) : string :=
  match t with
  | ErrorObject message => message
  | OtherValue => "Failed to load FFmpeg engine"
  end.

(** load, up to its first await; [None] when it returns at once. *)
Definition load_begin (h : Hook) : option Hook :=
  if loaded h then None
  else Some {| loaded := loaded h; isLoading := true; loadError := None;
               logListeners := S (logListeners h) |}.

(** load, from the settling of its await to its end. *)
Definition load_end (o : LoadOutcome) (h : Hook) : Hook :=
  match o with
  | LoadResolved =>
      {| loaded := true; isLoading := false; loadError := loadError h;
         logListeners := logListeners h |}
  | LoadRejected t =>
      {| loaded := loaded h; isLoading := false; loadError := Some (error_text t);
         logListeners := logListeners h |}
  end.

(** The hook with its calls of load in flight. *)
Record Loader := { hook : Hook; loading : nat }.

Inductive LoadEvent :=
| CallLoad                          (* the mount effect, or the retry button *)
| SettleLoad (o : LoadOutcome).     (* a call's await settles *)

Definition loader_react (ev : LoadEvent) (l : Loader) : Loader :=
  match ev with
  | CallLoad =>
      match load_begin (hook l) with
      | Some h => {| hook := h; loading := S (loading l) |}
      | None => l
      end
  | SettleLoad o =>
      match loading l with
      | 0 => l
      | S n => {| hook := load_end o (hook l); loading := n |}
      end
  end.

Definition loader_run (evs : list LoadEvent) (l : Loader) : Loader :=
  foldl (λ l ev, loader_react ev l) l evs.

Definition is_call_load (ev : LoadEvent) : bool :=
  match ev with CallLoad => true | SettleLoad _ => false end.

(** useState initialisers of the hook. *)
Definition initial_hook : Hook :=
  {| loaded := false; isLoading := false; loadError := None; logListeners := 0 |}.

Definition initial_loader : Loader := {| hook := initial_hook; loading := 0 |}.

(** The calls of load that got past the [loaded] test. *)
Fixpoint loads_begun (evs : list LoadEvent) (l : Loader) : nat :=
  match evs with
  | [] => 0
  | ev :: rest =>
      (match ev with
       | CallLoad => if loaded (hook l) then 0 else 1
       | SettleLoad _ => 0
       end) + loads_begun rest (loader_react ev l)
  end.

(** What App renders in [main] (lines 82-127). *)
Inductive Screen := FailureScreen (message : string) | InitScreen | MainScreen (v : View).

Definition screen (h : Hook) (a : App) : Screen :=
  match loadError h with
  | Some message =>
      if Js.truthy message then FailureScreen message
      else if loaded h then MainScreen (main_view a) else InitScreen
  | None => if loaded h then MainScreen (main_view a) else InitScreen
  end.

(** ** Dropzone.tsx *)

Record DropzoneState := {
  isDragActive : bool;
  urlInput : string;
  isUrlLoading : bool;
  showUrlInput : bool
}.

(** What a handler did besides setting state: the files it passed to
    [onFilesSelected], and whether it raised the alert. *)
Record Effects := { selected : option (list File); alerted : bool }.

Definition nothing : Effects := {| selected := None; alerted := false |}.

(** handleDragOver (lines 17-21) *)
Definition handleDragOver (disabled : bool) (st : DropzoneState) : DropzoneState :=
  if disabled then st
  else {| isDragActive := true; urlInput := urlInput st;
          isUrlLoading := isUrlLoading st; showUrlInput := showUrlInput st |}.

(** handleDragLeave (lines 23-26) *)
Definition handleDragLeave (st : DropzoneState) : DropzoneState :=
  {| isDragActive := false; urlInput := urlInput st;
     isUrlLoading := isUrlLoading st; showUrlInput := showUrlInput st |}.

(** handleDrop (lines 28-36) *)
Definition handleDrop (disabled : bool) (dropped : list File) (st : DropzoneState)
    : DropzoneState * Effects :=
  (handleDragLeave st,
   if disabled then nothing
   else match dropped with
        | [] => nothing
        | _ => {| selected := Some dropped; alerted := false |}
        end).

(** handlePaste (lines 38-44) *)
Definition handlePaste (disabled : bool) (pasted : list File) (st : DropzoneState)
    : DropzoneState * Effects :=
  (st,
   if disabled then nothing
   else match pasted with
        | [] => nothing
        | _ => {| selected := Some pasted; alerted := false |}
        end).

(** [a.pop()]: the last element, if any. *)
Definition pop (a : list string) : option string := last a.

(** [x || fallback] on strings. *)
Definition or_else (x fallback : string) : string :=
  if Js.truthy x then x else fallback.

(** [urlInput.split('/').pop()?.split('?')[0] || 'image.jpg'] (line 61) *)
Definition url_filename (url : string) : string :=
  match pop (Js.split "/" url) with
  | Some piece => or_else (Js.first (Js.split "?" piece)) "image.jpg"
  | None => "image.jpg"
  end.

(** What [fetch(urlInput)] and [response.blob()] come to. *)
Inductive FetchOutcome :=
| FetchRejected                                   (* network error, CORS *)
| Responded (ok : bool) (body : option bytes).    (* [None]: blob() rejects *)

(** handleUrlSubmit (lines 52-72), run to its end. *)
Definition handleUrlSubmit (disabled : bool) (outcome : FetchOutcome)
    (st : DropzoneState) : DropzoneState * Effects :=
  if negb (Js.truthy (urlInput st)) || disabled then (st, nothing)
  else
    let failed :=
      ({| isDragActive := isDragActive st; urlInput := urlInput st;
          isUrlLoading := false; showUrlInput := showUrlInput st |},
       {| selected := None; alerted := true |}) in
    match outcome with
    | Responded true (Some blob) =>
        ({| isDragActive := isDragActive st; urlInput := "";
            isUrlLoading := false; showUrlInput := false |},
         {| selected := Some [ {| name := url_filename (urlInput st);
                                  content := Some blob |} ];
            alerted := false |})
    | _ => failed
    end.

(** Does the character occur in the string? *)
Fixpoint occurs (c : Ascii.ascii) (s : string) : bool :=
  match s with
  | EmptyString => false
  | String x s' => Ascii.eqb x c || occurs c s'
  end.

(** Does a character that [/\s/] matches occur in the string? *)
Fixpoint has_space (s : string) : bool :=
  match s with
  | EmptyString => false
  | String x s' => Js.is_space x || has_space s'
  end.

(** * Properties *)

(** ** Array assignment *)

Lemma assign_at_lookup i j change (l : list FileState) :
  assign_at i change l !! j = if decide (i = j) then change <$> l !! j else l !! j.
Proof.
  unfold assign_at. destruct (l !! i) as [s|] eqn:Hi.
  - destruct (decide (i = j)) as [->|Hne].
    + rewrite list_lookup_insert_eq by (by eapply lookup_lt_Some).
      by rewrite Hi.
    + by rewrite list_lookup_insert_ne.
  - destruct (decide (i = j)) as [->|Hne]; [by rewrite Hi | done].
Qed.

Lemma assign_at_length i change (l : list FileState) :
  length (assign_at i change l) = length l.
Proof. unfold assign_at. destruct (l !! i); [apply length_insert | done]. Qed.

Lemma assign_at_twice i f g (l : list FileState) :
  assign_at i f (assign_at i g l) = assign_at i (f ∘ g) l.
Proof.
  apply list_eq. intros j. rewrite !assign_at_lookup.
  destruct (decide (i = j)); [|done]. by destruct (l !! j).
Qed.

(** ** The engine's operations *)

Lemma writeFile_ops n b e : ops (Engine.writeFile n b e).1 = ops e ++ [OpWrite n].
Proof. unfold Engine.writeFile. by destruct (write_replies e) as [|[] ?]. Qed.

Lemma exec_ops c e : ops (Engine.exec c e).1 = ops e ++ [OpExec c].
Proof.
  unfold Engine.exec.
  by destruct (exec_replies e) as [|[] ?], (Engine.transcode c e).
Qed.

Lemma readFile_ops n e : ops (Engine.readFile n e).1 = ops e ++ [OpRead n].
Proof.
  unfold Engine.readFile.
  by destruct (read_replies e) as [|[] ?], (vfs e !! n).
Qed.

Lemma deleteFile_ops n e : ops (Engine.deleteFile n e).1 = ops e ++ [OpDelete n].
Proof.
  unfold Engine.deleteFile.
  by destruct (delete_replies e) as [|[] ?], (vfs e !! n).
Qed.

Lemma writeFile_delete_replies n b e :
  delete_replies (Engine.writeFile n b e).1 = delete_replies e.
Proof. unfold Engine.writeFile. by destruct (write_replies e) as [|[] ?]. Qed.

Lemma exec_delete_replies c e :
  delete_replies (Engine.exec c e).1 = delete_replies e.
Proof.
  unfold Engine.exec.
  by destruct (exec_replies e) as [|[] ?], (Engine.transcode c e).
Qed.

Lemma readFile_delete_replies n e :
  delete_replies (Engine.readFile n e).1 = delete_replies e.
Proof.
  unfold Engine.readFile.
  by destruct (read_replies e) as [|[] ?], (vfs e !! n).
Qed.

Lemma readFile_vfs n e : vfs (Engine.readFile n e).1 = vfs e.
Proof.
  unfold Engine.readFile.
  by destruct (read_replies e) as [|[] ?], (vfs e !! n).
Qed.




Lemma writeFile_frame n b e :
  exec_replies (Engine.writeFile n b e).1 = exec_replies e ∧
  read_replies (Engine.writeFile n b e).1 = read_replies e ∧
  ∀ m, m ≠ n → vfs (Engine.writeFile n b e).1 !! m = vfs e !! m.
Proof.
  unfold Engine.writeFile.
  destruct (write_replies e) as [|[] ?]; simpl; repeat split; try done;
    intros m Hm; by rewrite lookup_insert_ne.
Qed.


Lemma exec_frame_other inp out c m e :
  m ≠ out →
  vfs (Engine.exec [c; inp; out] e).1 !! m = vfs e !! m.
Proof.
  intros Hm. unfold Engine.exec, Engine.transcode.
  destruct (exec_replies e) as [|[] ?]; simpl;
    destruct (String.eqb c "-i"); try done;
    destruct (vfs e !! inp); try done;
    destruct (codec e out _); try done; simpl; by rewrite lookup_insert_ne.
Qed.


Lemma deleteFile_frame n m e :
  m ≠ n → vfs (Engine.deleteFile n e).1 !! m = vfs e !! m.
Proof.
  intros Hm. unfold Engine.deleteFile.
  destruct (delete_replies e) as [|[] ?], (vfs e !! n); simpl; try done;
    by rewrite lookup_delete_ne.
Qed.

(** ** Virtual file names *)

Lemma inputName_ne_outputName i s j fmt : inputName i s ≠ outputName j fmt.
Proof. unfold inputName, outputName. simpl. discriminate. Qed.

(** [`${index}`] is made of digits. *)
Lemma pretty_N_go_digits x s : digits s = true → digits (pretty_N_go x s) = true.
Proof.
  revert s. induction (N.lt_wf_0 x) as [x _ IH]; intros s Hs.
  assert (x = 0 ∨ 0 < x)%N as [->|Hx] by lia.
  - by rewrite pretty_N_go_0.
  - rewrite pretty_N_go_step by done. apply IH.
    + by apply N.div_lt.
    + simpl. rewrite Hs, andb_true_r.
      unfold pretty_N_char. by repeat case_match.
Qed.

Lemma pretty_nat_digits (n : nat) : digits (pretty n) = true.
Proof.
  unfold pretty, pretty_nat, pretty, pretty_N.
  case_decide; [done|]. by apply pretty_N_go_digits.
Qed.

Lemma digits_then_other a b c r r' :
  digits a = true → digits b = true → is_digit c = false →
  a +:+ String c r = b +:+ String c r' → a = b.
Proof.
  revert b. induction a as [|x a IH]; intros [|y b] Ha Hb Hc; simpl in *.
  - done.
  - intros [= -> _]. apply andb_true_iff in Hb as [Hy _]. congruence.
  - intros [= <- _]. apply andb_true_iff in Ha as [Hx _]. congruence.
  - intros [= -> H]. f_equal.
    apply andb_true_iff in Ha as [_ Ha]. apply andb_true_iff in Hb as [_ Hb].
    by apply IH.
Qed.

(** The index can be read off a virtual name. *)
Lemma inputName_index i j s s' : inputName i s = inputName j s' → i = j.
Proof.
  unfold inputName. intros H.
  apply (inj (String.app "input_")) in H.
  apply digits_then_other in H; [|apply pretty_nat_digits..|done].
  by apply (inj pretty).
Qed.

Lemma outputName_index i j f g : outputName i f = outputName j g → i = j.
Proof.
  unfold outputName. intros H.
  apply (inj (String.app "output_")) in H.
  apply digits_then_other in H; [|apply pretty_nat_digits..|done].
  by apply (inj pretty).
Qed.

(** ** The try block, step by step *)

Ltac unfold_monad :=
  unfold try_finally, try_catch, mbind, M_bind, mret, M_ret, on_engine,
    setFileStates, setIsConverting, setTargetFormat, fetchFile, createObjectURL.

Ltac engine_case :=
  match goal with
  | |- context [Engine.writeFile ?n ?b ?e] =>
      destruct (Engine.writeFile n b e) as [? [[]|?]] eqn:?
  | |- context [Engine.exec ?c ?e] =>
      destruct (Engine.exec c e) as [? [[]|?]] eqn:?
  | |- context [Engine.readFile ?n ?e] =>
      destruct (Engine.readFile n e) as [? [?|?]] eqn:?
  | |- context [Engine.deleteFile ?n ?e] =>
      destruct (Engine.deleteFile n e) as [? [[]|?]] eqn:?
  end; cbn [fst snd conv env ffmpeg blobStore blobCount fileStates targetFormat isConverting].

Lemma attempt_spec fmt s i w :
  let w' := (attempt fmt s i w).1 in
  let o := outcome fmt s i (ffmpeg (env w)) in
  (attempt fmt s i w).2 = Ok tt ∧
  fileStates (conv w') = assign_at i (net_change o (next_url (env w))) (fileStates (conv w)) ∧
  targetFormat (conv w') = targetFormat (conv w) ∧
  isConverting (conv w') = isConverting (conv w) ∧
  ffmpeg (env w') = (engine_steps fmt s i (ffmpeg (env w))).1.
Proof.
  unfold attempt, outcome, engine_steps. unfold_monad.
  cbn [fst snd conv env ffmpeg blobStore blobCount fileStates targetFormat isConverting].
  destruct (content (file s)) as [data|];
    cbn [fst snd conv env ffmpeg blobStore blobCount fileStates targetFormat isConverting].
  2: { by rewrite assign_at_twice. }
  repeat engine_case; rewrite ?assign_at_twice; done.
Qed.

Lemma cleanup_spec s i w :
  let w' := (cleanup s i w).1 in
  (cleanup s i w).2 = Ok tt ∧
  conv w' = conv w ∧
  ffmpeg (env w') = (Engine.deleteFile (inputName i s) (ffmpeg (env w))).1 ∧
  blobStore (env w') = blobStore (env w) ∧
  blobCount (env w') = blobCount (env w).
Proof. unfold cleanup. unfold_monad. by engine_case. Qed.

(** convertFile, in one piece: it never throws, it changes its own
    record by [net_change], and the engine sees the steps of the try
    block followed by the deletion of the input. *)
Lemma convertFile_spec fmt s i w :
  let w' := (convertFile fmt s i w).1 in
  let o := outcome fmt s i (ffmpeg (env w)) in
  (convertFile fmt s i w).2 = Ok tt ∧
  fileStates (conv w') = assign_at i (net_change o (next_url (env w))) (fileStates (conv w)) ∧
  targetFormat (conv w') = targetFormat (conv w) ∧
  isConverting (conv w') = isConverting (conv w) ∧
  ffmpeg (env w') =
    (Engine.deleteFile (inputName i s) (engine_steps fmt s i (ffmpeg (env w))).1).1.
Proof.
  destruct (attempt_spec fmt s i w) as (Hr & Hf & Ht & Hc & He).
  destruct (cleanup_spec s i (attempt fmt s i w).1) as (Hr' & Hconv & He' & _).
  unfold convertFile, try_finally.
  destruct (attempt fmt s i w) as [w1 r1]; simpl in *.
  destruct (cleanup s i w1) as [w2 r2]; simpl in *. subst r1 r2. simpl.
  rewrite Hconv, He', He. done.
Qed.

Lemma convertFile_lookup fmt s i w j :
  fileStates (conv (convertFile fmt s i w).1) !! j =
    if decide (i = j)
    then net_change (outcome fmt s i (ffmpeg (env w))) (next_url (env w))
           <$> fileStates (conv w) !! j
    else fileStates (conv w) !! j.
Proof.
  destruct (convertFile_spec fmt s i w) as (_ & -> & _). apply assign_at_lookup.
Qed.

Lemma net_change_status o url x :
  status (net_change o url x) = if decide (o = Converted) then Done else Error.
Proof. by destruct o. Qed.

Lemma net_change_file o url x : file (net_change o url x) = file x.
Proof. by destruct o. Qed.

Ltac steps_case :=
  match goal with
  | |- context [Engine.writeFile ?n ?b ?e] =>
      let H := fresh "Hw" in
      pose proof (writeFile_ops n b e) as H;
      pose proof (writeFile_delete_replies n b e);
      destruct (Engine.writeFile n b e) as [? [[]|?]]
  | |- context [Engine.exec ?c ?e] =>
      let H := fresh "Hx" in
      pose proof (exec_ops c e) as H;
      pose proof (exec_delete_replies c e);
      destruct (Engine.exec c e) as [? [[]|?]]
  | |- context [Engine.readFile ?n ?e] =>
      let H := fresh "Hr" in
      pose proof (readFile_ops n e) as H;
      pose proof (readFile_delete_replies n e);
      pose proof (readFile_vfs n e);
      destruct (Engine.readFile n e) as [? [?|?]]
  end; simpl in *.




Ltac rewrite_ops :=
  repeat match goal with H : ops ?x = _ |- context [ops ?x] => rewrite H end;
  rewrite <- ?app_assoc.

Ltac chain_ops := rewrite_ops; eexists; reflexivity.

Lemma engine_steps_ops fmt s i e :
  ∃ l, ops (engine_steps fmt s i e).1 = ops e ++ l.
Proof.
  unfold engine_steps.
  destruct (content (file s)); [|by exists []; rewrite app_nil_r].
  repeat steps_case; try chain_ops.
  match goal with
  | |- context [Engine.deleteFile ?n ?e'] =>
      pose proof (deleteFile_ops n e') as Hd;
      destruct (Engine.deleteFile n e') as [? [[]|?]]; simpl in *
  end; chain_ops.
Qed.



Lemma engine_steps_frame fmt s i e m :
  m ≠ inputName i s → m ≠ outputName i fmt →
  vfs (engine_steps fmt s i e).1 !! m = vfs e !! m.
Proof.
  intros Hin Hout. unfold engine_steps.
  destruct (content (file s)) as [data|]; [|done].
  destruct (writeFile_frame (inputName i s) data e) as (_ & _ & Hw).
  specialize (Hw m Hin).
  destruct (Engine.writeFile _ _ e) as [e1 [[]|?]]; simpl in *; [|done].
  pose proof (exec_frame_other (inputName i s) (outputName i fmt) "-i" m e1 Hout) as Hx.
  destruct (Engine.exec _ e1) as [e2 [[]|?]]; simpl in *; [|congruence].
  pose proof (readFile_vfs (outputName i fmt) e2) as Hr.
  destruct (Engine.readFile _ e2) as [e3 [?|?]]; simpl in *; [|congruence].
  pose proof (deleteFile_frame (outputName i fmt) m e3 Hout) as Hd.
  destruct (Engine.deleteFile _ e3) as [e4 [[]|?]]; simpl in *; congruence.
Qed.

(** The last thing the engine is asked in any call of convertFile is to
    delete the input. *)
Lemma convertFile_ops fmt s i w :
  ∃ l, ops (ffmpeg (env (convertFile fmt s i w).1)) =
         ops (ffmpeg (env w)) ++ l ++ [OpDelete (inputName i s)].
Proof.
  destruct (convertFile_spec fmt s i w) as (_ & _ & _ & _ & ->).
  rewrite deleteFile_ops.
  destruct (engine_steps_ops fmt s i (ffmpeg (env w))) as [l ->].
  exists l. by rewrite app_assoc.
Qed.


(** convertFile touches no name but its input and its output name. *)
Lemma convertFile_frame fmt s i w m :
  m ≠ inputName i s → m ≠ outputName i fmt →
  vfs (ffmpeg (env (convertFile fmt s i w).1)) !! m = vfs (ffmpeg (env w)) !! m.
Proof.
  intros Hin Hout.
  destruct (convertFile_spec fmt s i w) as (_ & _ & _ & _ & ->).
  rewrite deleteFile_frame by done. by apply engine_steps_frame.
Qed.

(** A conversion reads and writes only the two virtual names of its own
    record: the files of every other record are left as they are. *)
Lemma conversions_keep_to_their_names fmt s i w j s' g :
  i ≠ j →
  vfs (ffmpeg (env (convertFile fmt s i w).1)) !! inputName j s' =
    vfs (ffmpeg (env w)) !! inputName j s' ∧
  vfs (ffmpeg (env (convertFile fmt s i w).1)) !! outputName j g =
    vfs (ffmpeg (env w)) !! outputName j g.
Proof.
  intros Hij. split; apply convertFile_frame.
  - intros H. by apply inputName_index in H.
  - apply inputName_ne_outputName.
  - intros H. symmetry in H. by apply inputName_ne_outputName in H.
  - intros H. by apply outputName_index in H.
Qed.

(** ** The loop of handleConvertAll *)

Lemma convert_from_pending fmt s rest i w :
  status s ≠ Done →
  convert_from fmt (s :: rest) i w = convert_from fmt rest (S i) (convertFile fmt s i w).1.
Proof.
  intros Hs. cbn [convert_from]. unfold mbind, M_bind.
  destruct (decide (status s ≠ Done)); [|done].
  destruct (convertFile_spec fmt s i w) as (Hr & _).
  destruct (convertFile fmt s i w) as [w1 r1]. simpl in Hr. by subst r1.
Qed.

Lemma convert_from_skip fmt s rest i w :
  status s = Done →
  convert_from fmt (s :: rest) i w = convert_from fmt rest (S i) w.
Proof.
  intros Hs. cbn [convert_from]. unfold mbind, M_bind.
  by destruct (decide (status s ≠ Done)).
Qed.

Ltac loop_step s Hs :=
  destruct (decide (status s = Done)) as [Hs|Hs];
  [rewrite !(convert_from_skip _ s _ _ _ Hs) | rewrite !(convert_from_pending _ s _ _ _ Hs)].

(** No exception leaves the loop. *)
Lemma convert_from_ok fmt rendered i w : (convert_from fmt rendered i w).2 = Ok tt.
Proof.
  revert i w. induction rendered as [|s rest IH]; intros i w; [done|].
  loop_step s Hs; apply IH.
Qed.

Lemma convert_from_flags fmt rendered i w :
  targetFormat (conv (convert_from fmt rendered i w).1) = targetFormat (conv w) ∧
  isConverting (conv (convert_from fmt rendered i w).1) = isConverting (conv w).
Proof.
  revert i w. induction rendered as [|s rest IH]; intros i w; [done|].
  loop_step s Hs; [apply IH|].
  destruct (IH (S i) (convertFile fmt s i w).1) as [-> ->].
  by destruct (convertFile_spec fmt s i w) as (_ & _ & -> & -> & _).
Qed.

(** What the loop does to each record: a rendered record that is not
    done is changed by the net change of one conversion; every other
    record is left as it is. *)
Lemma convert_from_records fmt rendered i w :
  let w' := (convert_from fmt rendered i w).1 in
  (∀ k r, rendered !! k = Some r → status r ≠ Done →
     ∃ o url, fileStates (conv w') !! (i + k) =
                net_change o url <$> fileStates (conv w) !! (i + k)) ∧
  (∀ j, (∀ k r, rendered !! k = Some r → j = i + k → status r = Done) →
     fileStates (conv w') !! j = fileStates (conv w) !! j).
Proof.
  revert i w. induction rendered as [|s rest IH]; intros i w; cbv zeta.
  { split; [intros k r Hk; by rewrite lookup_nil in Hk | done]. }
  loop_step s Hs.
  - destruct (IH (S i) w) as [IH1 IH2]. split.
    + intros [|k] r Hk Hr; simpl in Hk.
      * congruence.
      * replace (i + S k) with (S i + k) by lia. by eapply IH1.
    + intros j Hj. apply IH2. intros k r Hk ->.
      apply (Hj (S k) r); [done | lia].
  - destruct (IH (S i) (convertFile fmt s i w).1) as [IH1 IH2]. split.
    + intros [|k] r Hk Hr; simpl in Hk.
      * rewrite IH2 by (intros; lia).
        rewrite convertFile_lookup, Nat.add_0_r, decide_True by done. eauto.
      * destruct (IH1 k r Hk Hr) as (o & url & Heq).
        exists o, url. replace (i + S k) with (S i + k) by lia.
        rewrite Heq, convertFile_lookup, decide_False by lia. done.
    + intros j Hj. rewrite IH2.
      * rewrite convertFile_lookup, decide_False; [done|].
        intros ->. apply Hs, (Hj 0 s); [done | lia].
      * intros k r Hk ->. apply (Hj (S k) r); [done | lia].
Qed.

(** The engine log only grows, and every rendered record that is not
    done leaves the deletion of its input in it. *)
Lemma convert_from_ops fmt rendered i w :
  ∃ l, ops (ffmpeg (env (convert_from fmt rendered i w).1)) = ops (ffmpeg (env w)) ++ l ∧
       ∀ k r, rendered !! k = Some r → status r ≠ Done →
         OpDelete (inputName (i + k) r) ∈ l.
Proof.
  revert i w. induction rendered as [|s rest IH]; intros i w.
  { exists []. simpl. rewrite app_nil_r. split; [done|].
    intros k r Hk. by rewrite lookup_nil in Hk. }
  loop_step s Hs.
  - destruct (IH (S i) w) as (l & Hl & Hin). exists l. split; [done|].
    intros [|k] r Hk Hr; simpl in Hk; [congruence|].
    replace (i + S k) with (S i + k) by lia. by eapply Hin.
  - destruct (IH (S i) (convertFile fmt s i w).1) as (l & Hl & Hin).
    destruct (convertFile_ops fmt s i w) as [l0 Hl0].
    exists ((l0 ++ [OpDelete (inputName i s)]) ++ l). split.
    + rewrite Hl, Hl0. by rewrite <- !app_assoc.
    + intros [|k] r Hk Hr; simpl in Hk.
      * injection Hk as <-. rewrite Nat.add_0_r. set_solver.
      * replace (i + S k) with (S i + k) by lia.
        apply elem_of_app. right. by eapply Hin.
Qed.


(** A list of done records is passed over without any effect. *)
Lemma convert_from_all_done fmt rendered i w :
  Forall (λ s, status s = Done) rendered →
  convert_from fmt rendered i w = (w, Ok tt).
Proof.
  intros H. revert i. induction H as [|s rest Hs _ IH]; intros i; [done|].
  by rewrite convert_from_skip.
Qed.

Lemma convert_from_app fmt l1 l2 i w :
  convert_from fmt (l1 ++ l2) i w =
    convert_from fmt l2 (i + length l1) (convert_from fmt l1 i w).1.
Proof.
  revert i w. induction l1 as [|s rest IH]; intros i w.
  { simpl. by rewrite Nat.add_0_r. }
  replace (i + length (s :: rest)) with (S i + length rest) by (simpl; lia).
  rewrite <- app_comm_cons.
  loop_step s Hs; apply IH.
Qed.

Lemma convert_from_length fmt rendered i w :
  length (fileStates (conv (convert_from fmt rendered i w).1)) =
    length (fileStates (conv w)).
Proof.
  revert i w. induction rendered as [|s rest IH]; intros i w; [done|].
  loop_step s Hs; [apply IH|]. rewrite IH.
  destruct (convertFile_spec fmt s i w) as (_ & -> & _). apply assign_at_length.
Qed.

Lemma handleConvertAll_unfold w :
  handleConvertAll w =
    setIsConverting false
      (convert_from (targetFormat (conv w)) (fileStates (conv w)) 0
         (setIsConverting true w).1).1.
Proof.
  unfold handleConvertAll, mbind, M_bind.
  cbn [setIsConverting].
  pose proof (convert_from_ok (targetFormat (conv w)) (fileStates (conv w)) 0
                (setIsConverting true w).1) as Hok.
  cbn [setIsConverting fst] in Hok.
  destruct (convert_from _ _ _ _) as [w1 r1]. simpl in Hok. by subst r1.
Qed.

(** The record a call of handleConvertAll leaves at a rendered index
    that was not done: the net change of its own conversion, made in the
    world in which the loop reached it. *)
Lemma handleConvertAll_record w i s :
  fileStates (conv w) !! i = Some s →
  status s ≠ Done →
  fileStates (conv (handleConvertAll w).1) !! i =
    Some (net_change
            (outcome (targetFormat (conv w)) s i (ffmpeg (env (reached w i))))
            (next_url (env (reached w i))) s).
Proof.
  intros Hi Hs. rewrite handleConvertAll_unfold. cbn [setIsConverting fst conv fileStates].
  unfold reached.
  set (fmt := targetFormat (conv w)). set (w0 := (setIsConverting true w).1).
  rewrite <- (take_drop_middle _ _ _ Hi) at 1.
  rewrite convert_from_app, Nat.add_0_l.
  assert (length (take i (fileStates (conv w))) = i) as ->.
  { rewrite length_take. apply lookup_lt_Some in Hi. lia. }
  set (before := (convert_from fmt (take i (fileStates (conv w))) 0 w0).1).
  rewrite convert_from_pending by done.
  destruct (convert_from_records fmt (drop (S i) (fileStates (conv w))) (S i)
              (convertFile fmt s i before).1) as [_ ->]; [|intros; lia].
  rewrite convertFile_lookup, decide_True by done.
  destruct (convert_from_records fmt (take i (fileStates (conv w))) 0 w0) as [_ Hsame].
  fold before in Hsame. rewrite Hsame.
  - subst w0. cbn [setIsConverting fst conv fileStates]. by rewrite Hi.
  - intros k r Hk ->. simpl in Hk.
    apply lookup_lt_Some in Hk. rewrite length_take in Hk. lia.
Qed.

(** A done record is left exactly as it is by handleConvertAll. *)
Lemma handleConvertAll_skips w i s :
  fileStates (conv w) !! i = Some s →
  status s = Done →
  fileStates (conv (handleConvertAll w).1) !! i = Some s.
Proof.
  intros Hi Hs. rewrite handleConvertAll_unfold. cbn [setIsConverting fst conv fileStates].
  destruct (convert_from_records (targetFormat (conv w)) (fileStates (conv w)) 0
              (setIsConverting true w).1) as [_ ->]; [done|].
  intros k r Hk ->. simpl in Hi. congruence.
Qed.

Lemma handleConvertAll_ok w : (handleConvertAll w).2 = Ok tt.
Proof. by rewrite handleConvertAll_unfold. Qed.

Lemma handleConvertAll_flags w :
  isConverting (conv (handleConvertAll w).1) = false ∧
  targetFormat (conv (handleConvertAll w).1) = targetFormat (conv w).
Proof.
  rewrite handleConvertAll_unfold.
  destruct (convert_from_flags (targetFormat (conv w)) (fileStates (conv w)) 0
              (setIsConverting true w).1) as [Ht _].
  split; [done | exact Ht].
Qed.

Lemma handleConvertAll_ops w :
  ∃ l, ops (ffmpeg (env (handleConvertAll w).1)) = ops (ffmpeg (env w)) ++ l ∧
       ∀ i s, fileStates (conv w) !! i = Some s → status s ≠ Done →
         OpDelete (inputName i s) ∈ l.
Proof.
  rewrite handleConvertAll_unfold. cbn [setIsConverting fst env].
  destruct (convert_from_ops (targetFormat (conv w)) (fileStates (conv w)) 0
              (setIsConverting true w).1) as (l & Hl & Hin).
  exists l. split; [done|]. intros i s. apply (Hin i s).
Qed.

(** ** A call of handleConvertAll on its own

    Run under the event loop with nothing else started, a call of
    handleConvertAll goes through the same steps as the function
    [handleConvertAll] above and ends in the same world. *)

Lemma settle_n_S n p : settle_n (S n) p = settle_n n (settle p).
Proof. reflexivity. Qed.

Lemma settle_n_add n m p : settle_n (n + m) p = settle_n m (settle_n n p).
Proof. revert p. induction n as [|n IH]; intros p; [done|]. simpl. apply IH. Qed.

Ltac engine_case_eq :=
  match goal with
  | |- context [Engine.writeFile ?n ?b ?e] =>
      destruct (Engine.writeFile n b e) as [? [[]|?]] eqn:?
  | |- context [Engine.exec ?c ?e] =>
      destruct (Engine.exec c e) as [? [[]|?]] eqn:?
  | |- context [Engine.readFile ?n ?e] =>
      destruct (Engine.readFile n e) as [? [?|?]] eqn:?
  | |- context [Engine.deleteFile ?n ?e] =>
      destruct (Engine.deleteFile n e) as [? [[]|?]] eqn:?
  end; cbn [fst snd conv env ffmpeg blobStore blobCount fileStates targetFormat isConverting].

Ltac settle_step :=
  rewrite settle_n_S; unfold settle; cbn [fst snd]; unfold resume; unfold_monad;
  cbn [fst snd conv env ffmpeg blobStore blobCount fileStates targetFormat isConverting];
  repeat match goal with
         | H : ?op = _ |- context [?op] => rewrite H
         end;
  cbn [fst snd conv env ffmpeg blobStore blobCount fileStates targetFormat isConverting].

(** From the first await of a conversion to the loop's next step. *)
Lemma settle_conversion fmt s i rest w :
  ∃ n, settle_n n ((setFileStates (assign_at i mark_converting) w).1,
                   Running fmt s i rest Fetching) =
       enter fmt rest (S i) (convertFile fmt s i w).1.
Proof.
  unfold convertFile, try_finally, attempt, cleanup. unfold_monad.
  cbn [fst snd conv env ffmpeg blobStore blobCount fileStates targetFormat isConverting].
  destruct (content (file s)) as [data|] eqn:Hc;
    cbn [fst snd conv env ffmpeg blobStore blobCount fileStates targetFormat isConverting].
  - repeat engine_case_eq;
      first [ exists 6; do 6 settle_step; reflexivity
            | exists 5; do 5 settle_step; reflexivity
            | exists 4; do 4 settle_step; reflexivity
            | exists 3; do 3 settle_step; reflexivity ].
  - engine_case_eq; (exists 2; do 2 settle_step; reflexivity).
Qed.

Lemma settle_loop fmt rendered i w :
  ∃ n, settle_n n (enter fmt rendered i w) =
       ((setIsConverting false (convert_from fmt rendered i w).1).1, Finished).
Proof.
  revert i w. induction rendered as [|s rest IH]; intros i w.
  { by exists 0. }
  cbn [enter]. destruct (decide (status s ≠ Done)) as [Hs|Hs].
  - rewrite convert_from_pending by done.
    destruct (settle_conversion fmt s i rest w) as [n Hn].
    destruct (IH (S i) (convertFile fmt s i w).1) as [m Hm].
    exists (n + m). by rewrite settle_n_add, Hn.
  - rewrite convert_from_skip by (by destruct (decide (status s = Done))).
    apply IH.
Qed.

Lemma run_lone_call n w t c :
  run (repeat (Settle 0) n) {| world := w; calls := [t]; clicked := c |} =
    {| world := (settle_n n (w, t)).1; calls := [(settle_n n (w, t)).2]; clicked := c |}.
Proof.
  revert w t. induction n as [|n IH]; intros w t; [done|].
  cbn [repeat run foldl]. unfold run in IH. rewrite settle_n_S.
  destruct t as [fmt s i rest stage|]; cbn [react calls lookup list_lookup world].
  - unfold settle. cbn [fst snd].
    destruct (resume fmt s i rest stage w) as [w' t'] eqn:Hr.
    cbn [list_insert insert calls clicked]. apply IH.
  - apply IH.
Qed.

(** X2. The call started by Shift+C and left alone returns after
    finitely many settled awaits, and leaves the world handleConvertAll
    run to its end leaves. *)
Theorem lone_call_is_handleConvertAll (w : World) :
  ∃ n, run (shift_c :: repeat (Settle 0) n) (system_of w) =
       {| world := (handleConvertAll w).1; calls := [Finished]; clicked := [] |}.
Proof.
  destruct (settle_loop (targetFormat (conv w)) (fileStates (conv w)) 0
              (setIsConverting true w).1) as [n Hn].
  exists n. rewrite handleConvertAll_unfold.
  change (run (shift_c :: repeat (Settle 0) n) (system_of w))
    with (run (repeat (Settle 0) n) (start_convert_all (system_of w))).
  unfold start_convert_all, system_of. cbn [world calls clicked].
  destruct (enter _ _ _ _) as [w1 t1] eqn:He. cbn [app].
  rewrite run_lone_call. by rewrite Hn.
Qed.

(** ** The guarded path

    The convert button is disabled while [isConverting] is set.  As
    long as no call is started from the keyboard, that guard keeps the
    calls of handleConvertAll apart. *)

Lemma running_count_snoc l t :
  running_count (l ++ [t]) = running_count l + (if is_running t then 1 else 0).
Proof.
  unfold running_count. rewrite List.filter_app, length_app. f_equal.
  by destruct t.
Qed.

Lemma running_count_insert l k t t' :
  l !! k = Some t →
  is_running t = true →
  running_count (<[k := t']> l) + 1 =
    running_count l + (if is_running t' then 1 else 0).
Proof.
  unfold running_count. revert k. induction l as [|a l IH]; intros k Hk Ht; [done|].
  destruct k as [|k]; simpl in Hk.
  - injection Hk as ->. change (<[0 := t']> (t :: l)) with (t' :: l).
    cbn [List.filter]. rewrite Ht.
    destruct (is_running t'); cbn [length]; lia.
  - change (<[S k := t']> (a :: l)) with (a :: <[k := t']> l).
    cbn [List.filter]. specialize (IH k Hk Ht).
    destruct (is_running a), (is_running t'); cbn [length] in *; lia.
Qed.

Lemma enter_flags fmt rendered i w :
  (is_running (enter fmt rendered i w).2 = true ∧
   isConverting (conv (enter fmt rendered i w).1) = isConverting (conv w)) ∨
  ((enter fmt rendered i w).2 = Finished ∧
   isConverting (conv (enter fmt rendered i w).1) = false).
Proof.
  revert i. induction rendered as [|s rest IH]; intros i; cbn [enter].
  - by right.
  - destruct (decide (status s ≠ Done)); [by left | apply IH].
Qed.

Lemma resume_flags fmt s i rest stage w :
  (is_running (resume fmt s i rest stage w).2 = true ∧
   isConverting (conv (resume fmt s i rest stage w).1) = isConverting (conv w)) ∨
  ((resume fmt s i rest stage w).2 = Finished ∧
   isConverting (conv (resume fmt s i rest stage w).1) = false).
Proof.
  destruct stage; unfold resume; unfold_monad;
    cbn [fst snd conv env ffmpeg blobStore blobCount fileStates targetFormat isConverting].
  - destruct (content (file s)); by left.
  - engine_case; by left.
  - engine_case; by left.
  - engine_case; by left.
  - engine_case; by left.
  - match goal with |- context [enter ?f ?r ?j ?v] =>
      destruct (enter_flags f r j v) as [[H1 H2]|[H1 H2]]
    end.
    + left. split; [done|]. rewrite H2. by engine_case.
    + by right.
Qed.

Lemma react_exclusive ev sys :
  starts_by_key ev = false → exclusive sys → exclusive (react ev sys).
Proof.
  intros Hev Hsys.
  assert (isConverting (conv (world sys)) = false → exclusive (start_convert_all sys))
    as Hstart.
  { intros Hc. destruct Hsys as [_ Hzero]. specialize (Hzero Hc).
    unfold start_convert_all, exclusive, in_flight in *.
    pose proof (enter_flags (targetFormat (conv (world sys)))
                  (fileStates (conv (world sys))) 0
                  (setIsConverting true (world sys)).1) as Hf.
    destruct (enter _ _ _ _) as [w' t]. cbn [fst snd world calls] in *.
    rewrite running_count_snoc, Hzero. destruct Hf as [[Ht Hw]|[-> Hw]].
    - rewrite Ht. split; [simpl; lia|]. rewrite Hw. discriminate.
    - simpl. split; [lia | done]. }
  destruct ev as [typing shiftKey key| | |f|t]; cbn [react].
  - unfold handleKeyDown. simpl in Hev.
    destruct typing; [done|]. destruct shiftKey; [|done]. simpl in Hev.
    rewrite Hev.
    repeat match goal with |- context [String.eqb ?a ?b] => destruct (String.eqb a b) end;
      exact Hsys.
  - destruct (isConverting (conv (world sys))) eqn:Hc; [exact Hsys|].
    destruct (all_done _); [exact Hsys|]. by apply Hstart.
  - destruct (some_done _); exact Hsys.
  - destruct (isConverting (conv (world sys))); exact Hsys.
  - destruct (calls sys !! t) as [[fmt s i rest stage|]|] eqn:Ht;
      [|exact Hsys|exact Hsys].
    pose proof (resume_flags fmt s i rest stage (world sys)) as Hf.
    destruct (resume fmt s i rest stage (world sys)) as [w' t'].
    cbn [fst snd] in Hf. destruct Hsys as [Hle Hzero].
    unfold exclusive, in_flight in *. cbn [world calls].
    pose proof (running_count_insert (calls sys) t _ t' Ht eq_refl) as Hcount.
    destruct Hf as [[Hrun Hw]|[-> Hw]].
    + rewrite Hrun in Hcount. split; [lia|]. rewrite Hw. intros Hc.
      specialize (Hzero Hc). lia.
    + simpl in Hcount. split; lia.
Qed.

(** Among the calls of one mounted Converter: started from the button
    only, at most one of them is in flight at any time. *)
Theorem button_calls_are_exclusive (evs : list Event) (w : World) :
  isConverting (conv w) = false →
  Forall (λ ev, starts_by_key ev = false) evs →
  (in_flight (run evs (system_of w)) ≤ 1)%nat.
Proof.
  intros Hw Hevs.
  assert (exclusive (system_of w)) as Hinit.
  { unfold exclusive, in_flight, running_count. simpl. split; [lia | done]. }
  revert Hinit. generalize (system_of w). clear Hw.
  induction Hevs as [|ev evs Hev _ IH]; intros sys Hsys.
  - apply Hsys.
  - cbn [run foldl]. apply IH. by apply react_exclusive.
Qed.

(** * The specification, claim by claim *)

(** ** Download names *)

Lemma split_nonempty sep s : Js.split sep s ≠ [].
Proof.
  destruct s as [|c s]; simpl; [done|].
  destruct (Ascii.eqb c sep); [done|]. by destruct (Js.split sep s).
Qed.

Lemma split_single sep s a : Js.split sep s = [a] → a = s.
Proof.
  revert a. induction s as [|c s IH]; intros a; simpl.
  - congruence.
  - destruct (Ascii.eqb c sep).
    + intros H. injection H as _ H. by apply split_nonempty in H.
    + destruct (Js.split sep s) as [|p ps] eqn:E; [by apply split_nonempty in E|].
      intros H. injection H as <- ->. by rewrite (IH p).
Qed.

(** Where the code's name is the spec's: for a display name with at
    most one dot, the text before the first dot is the name without its
    extension. *)
Lemma download_name_matches_spec_up_to_one_dot s fmt :
  (length (Js.split "." (name (file s))) ≤ 2)%nat →
  download_name s fmt = spec_base_name (name (file s)) +:+ "." +:+ format_text fmt.
Proof.
  unfold download_name, spec_base_name. intros Hlen. f_equal.
  destruct (Js.split "." (name (file s))) as [|a [|b [|c l]]] eqn:E; simpl in *.
  - by apply split_nonempty in E.
  - by apply split_single in E.
  - done.
  - lia.
Qed.

(** C1. Scenario A on the code: the blob photo.HEIC.jpg converted to
    PNG is done, its payload has media type image/png, and downloadAll
    and the record's link deliver it as photo.png - the name up to the
    first dot - not as photo.HEIC.png, the name without its extension. *)
Theorem scenario_a_download_name :
  let w := (handleConvertAll (one_photo plain_engine)).1 in
  status <$> fileStates (conv w) = [Done] ∧
  blob_type <$> blobStore (env w) !! "blob:0" = Some "image/png" ∧
  downloadAll w = [{| href := "blob:0"; download := "photo.png" |}] ∧
  record_link w 0 = Some (Some "blob:0", "photo.png") ∧
  spec_base_name (name photo) +:+ "." +:+ format_text png = "photo.HEIC.png" ∧
  download_name (idle photo) png ≠ spec_base_name (name photo) +:+ "." +:+ format_text png.
Proof. vm_compute. repeat split. discriminate. Qed.

Lemma format_text_inj f g : format_text f = format_text g → f = g.
Proof. by destruct f, g. Qed.

Lemma download_name_inj s f g : download_name s f = download_name s g → f = g.
Proof.
  unfold download_name. intros H.
  apply (inj (String.app _)) in H. apply (inj (String.app ".")) in H.
  by apply format_text_inj.
Qed.

(** C10. Changing the target format changes neither the records nor
    the registered payloads, yet downloadAll and the per-record link
    then name every done record's output with the new format: the
    extension is the format current at download time, and it differs
    from the one used before whenever the two formats differ. *)
Theorem download_name_follows_current_format (w : World) (f : TargetFormat)
    (i : nat) (s : FileState) (url : string) :
  fileStates (conv w) !! i = Some s →
  status s = Done →
  outputUrl s = Some url →
  url ≠ "" →
  let w' := (setTargetFormat f w).1 in
  fileStates (conv w') = fileStates (conv w) ∧
  env w' = env w ∧
  {| href := url;
     download := Js.first (Js.split "." (name (file s))) +:+ "." +:+ format_text f |}
    ∈ downloadAll w' ∧
  record_link w' i =
    Some (Some url, Js.first (Js.split "." (name (file s))) +:+ "." +:+ format_text f) ∧
  (f ≠ targetFormat (conv w) →
   download_name s f ≠ download_name s (targetFormat (conv w))).
Proof.
  intros Hi Hs Hu Hne. cbv zeta. cbn [setTargetFormat fst conv env fileStates].
  split; [done|]. split; [done|]. split; [|split].
  - unfold downloadAll. cbn [conv fileStates targetFormat].
    apply list_elem_of_omap. exists s. split; [by eapply list_elem_of_lookup_2|].
    rewrite Hu, bool_decide_true by done.
    unfold Js.truthy. destruct (String.eqb_spec url ""); [done|]. reflexivity.
  - unfold record_link. cbn [conv fileStates targetFormat].
    by rewrite Hi, bool_decide_true, Hu by done.
  - intros Hf Heq. by apply Hf, (download_name_inj s).
Qed.

Lemma download_name_follows_current_format_witness :
  {| href := "blob:0"; download := "photo.jpeg" |}
    ∈ downloadAll (setTargetFormat jpeg (handleConvertAll (one_photo plain_engine)).1).1.
Proof.
  destruct (download_name_follows_current_format
              (handleConvertAll (one_photo plain_engine)).1 jpeg 0
              {| file := photo; status := Done; outputUrl := Some "blob:0"; error := None |}
              "blob:0") as (_ & _ & Hin & _).
  - reflexivity.
  - reflexivity.
  - reflexivity.
  - discriminate.
  - exact Hin.
Defined.

(** The payload keeps the media type of the format it was converted to. *)
Example renamed_not_reencoded :
  let w := (setTargetFormat jpeg (handleConvertAll (one_photo plain_engine)).1).1 in
  downloadAll w = [{| href := "blob:0"; download := "photo.jpeg" |}] ∧
  blob_type <$> blobStore (env w) !! "blob:0" = Some "image/png".
Proof. vm_compute. split; reflexivity. Qed.

(** ** What a conversion leaves in the engine *)





(** The other two assumptions are needed as well: a refused deletion of
    the output, and a read that throws although the output is there,
    both leave the output behind. *)
Lemma leftover_output_after_refused_deletion :
  ¬ no_leftover png (idle photo) 0 (one_photo (engine_replying [] [Fails])).
Proof. unfold no_leftover. vm_compute. intros [_ H]. discriminate H. Qed.

Lemma leftover_output_after_failed_read :
  ¬ no_leftover png (idle photo) 0
      (one_photo {| vfs := ∅; codec := λ _ b, Some b;
                    write_replies := []; exec_replies := []; read_replies := [Fails];
                    delete_replies := []; ops := [] |}).
Proof. unfold no_leftover. vm_compute. intros [_ H]. discriminate H. Qed.

(** ** One conversion at a time *)


(** C3. On the code two conversions can be in flight at once: Shift+C
    starts handleConvertAll whether or not a call is already running.
    Pressed twice on a batch of one idle file, with a faultless engine,
    it puts two conversions of the same record in flight, and their
    engine operations alternate on the same virtual file names. *)
Theorem shift_c_twice_overlaps :
  let sys := system_of (one_photo plain_engine) in
  let evs := [shift_c; Settle 0; shift_c; Settle 1; Settle 0; Settle 1; Settle 0;
              Settle 1; Settle 0; Settle 1; Settle 0; Settle 1; Settle 0; Settle 1] in
  in_flight (run [shift_c; Settle 0; shift_c] sys) = 2 ∧
  isConverting (conv (world (run [shift_c; Settle 0] sys))) = true ∧
  ops (ffmpeg (env (world (run evs sys)))) =
    [ OpWrite "input_0_photo.HEIC.jpg"; OpWrite "input_0_photo.HEIC.jpg";
      OpExec ["-i"; "input_0_photo.HEIC.jpg"; "output_0.png"];
      OpExec ["-i"; "input_0_photo.HEIC.jpg"; "output_0.png"];
      OpRead "output_0.png"; OpRead "output_0.png";
      OpDelete "output_0.png"; OpDelete "output_0.png";
      OpDelete "input_0_photo.HEIC.jpg"; OpDelete "input_0_photo.HEIC.jpg" ] ∧
  calls (run evs sys) = [Finished; Finished] ∧
  status <$> fileStates (conv (world (run evs sys))) = [Error].
Proof. vm_compute. repeat split. Qed.

(** ** The batch after handleConvertAll *)

(** A call of handleConvertAll that runs on its own, from its start to
    its return: when it returns, every record of the batch has status
    done or error (none is idle or converting), and isConverting is
    false, whatever the engine did to each record. *)
Theorem convertAll_settles_every_record (w : World) :
  (handleConvertAll w).2 = Ok tt ∧
  length (fileStates (conv (handleConvertAll w).1)) = length (fileStates (conv w)) ∧
  Forall (λ x, status x = Done ∨ status x = Error)
    (fileStates (conv (handleConvertAll w).1)) ∧
  isConverting (conv (handleConvertAll w).1) = false.
Proof.
  split; [apply handleConvertAll_ok|].
  assert (length (fileStates (conv (handleConvertAll w).1)) =
          length (fileStates (conv w))) as Hlen.
  { rewrite handleConvertAll_unfold. cbn [setIsConverting fst conv fileStates].
    by rewrite convert_from_length. }
  split; [done|]. split; [|apply handleConvertAll_flags].
  apply Forall_lookup. intros i x Hx.
  destruct (fileStates (conv w) !! i) as [s|] eqn:Hi.
  - destruct (decide (status s = Done)) as [Hs|Hs].
    + rewrite (handleConvertAll_skips w i s Hi Hs) in Hx. left. congruence.
    + rewrite (handleConvertAll_record w i s Hi Hs) in Hx.
      injection Hx as <-. rewrite net_change_status. case_decide; auto.
  - apply lookup_lt_Some in Hx. apply lookup_ge_None in Hi. lia.
Qed.


(** C5. Inside a call of handleConvertAll, every rendered record that is
    not done is converted in the world the loop reaches it in, whatever
    happened to the records before it: when fetching, writing, executing
    or reading throws, the record ends with status error and the message
    "Conversion failed"; no exception leaves convertFile or
    handleConvertAll; the record's conversion shows in the engine log by
    the deletion of its input; and a conversion of this record leaves
    the virtual files of every other record as they are. *)
Theorem conversion_failure_is_contained (w : World) (i : nat) (s : FileState) :
  fileStates (conv w) !! i = Some s →
  status s ≠ Done →
  (∀ fmt' s' i' w', (convertFile fmt' s' i' w').2 = Ok tt) ∧
  (handleConvertAll w).2 = Ok tt ∧
  (∃ x, fileStates (conv (handleConvertAll w).1) !! i = Some x ∧
        (before_done (outcome (targetFormat (conv w)) s i (ffmpeg (env (reached w i)))) →
           status x = Error ∧ error x = Some "Conversion failed") ∧
        (status x = Done ∨ status x = Error)) ∧
  (∃ l, ops (ffmpeg (env (handleConvertAll w).1)) = ops (ffmpeg (env w)) ++ l ∧
        OpDelete (inputName i s) ∈ l) ∧
  (∀ fmt' w' j s' g, i ≠ j →
     vfs (ffmpeg (env (convertFile fmt' s i w').1)) !! inputName j s' =
       vfs (ffmpeg (env w')) !! inputName j s' ∧
     vfs (ffmpeg (env (convertFile fmt' s i w').1)) !! outputName j g =
       vfs (ffmpeg (env w')) !! outputName j g).
Proof.
  intros Hi Hs. split; [intros; apply convertFile_spec|].
  split; [apply handleConvertAll_ok|]. split; [|split].
  - eexists. split; [by apply handleConvertAll_record|]. split.
    + intros [Ho|[Ho|[Ho|Ho]]]; by rewrite Ho.
    + rewrite net_change_status. case_decide; auto.
  - destruct (handleConvertAll_ops w) as (l & Hl & Hin). exists l. eauto.
  - intros. by apply conversions_keep_to_their_names.
Qed.

Lemma conversion_failure_is_contained_witness :
  ∃ x, fileStates (conv (handleConvertAll scenario_b).1) !! 1 = Some x ∧
       status x = Error ∧ error x = Some "Conversion failed".
Proof.
  destruct (conversion_failure_is_contained scenario_b 1
              (idle {| name := "b b.jpg"; content := Some [x02] |}))
    as (_ & _ & (x & Hx & Hfail & _) & _ & _).
  - reflexivity.
  - discriminate.
  - exists x. split; [exact Hx|]. apply Hfail.
    right. right. left. vm_compute. reflexivity.
Defined.

(** Scenario B in full: the first and third record are done, the second
    is failed with a diagnostic, and the call completes. *)
Example scenario_b_runs :
  let w := (handleConvertAll scenario_b).1 in
  (handleConvertAll scenario_b).2 = Ok tt ∧
  status <$> fileStates (conv w) = [Done; Error; Done] ∧
  error <$> fileStates (conv w) = [None; Some "Conversion failed"; None] ∧
  isConverting (conv w) = false ∧
  ops (ffmpeg (env w)) =
    [ OpWrite "input_0_a.jpg"; OpExec ["-i"; "input_0_a.jpg"; "output_0.png"];
      OpRead "output_0.png"; OpDelete "output_0.png"; OpDelete "input_0_a.jpg";
      OpWrite "input_1_b_b.jpg"; OpExec ["-i"; "input_1_b_b.jpg"; "output_1.png"];
      OpDelete "input_1_b_b.jpg";
      OpWrite "input_2_c.jpg"; OpExec ["-i"; "input_2_c.jpg"; "output_2.png"];
      OpRead "output_2.png"; OpDelete "output_2.png"; OpDelete "input_2_c.jpg" ].
Proof. vm_compute. repeat split. Qed.

(** C7. A call of handleConvertAll on a batch whose records are all done
    asks nothing of the engine and changes no record; so a second call,
    made after a first one in which nothing failed, changes nothing at
    all.  In any call, a done record is passed over and keeps its value,
    while a record with status error is converted again: the deletion
    of its input shows in the engine log. *)
Theorem convertAll_skips_done_records (w : World) :
  (Forall (λ s, status s = Done) (fileStates (conv w)) →
     env (handleConvertAll w).1 = env w ∧
     fileStates (conv (handleConvertAll w).1) = fileStates (conv w)) ∧
  (Forall (λ s, status s = Done) (fileStates (conv (handleConvertAll w).1)) →
     handleConvertAll (handleConvertAll w).1 = ((handleConvertAll w).1, Ok tt)) ∧
  (∀ i s, fileStates (conv w) !! i = Some s → status s = Done →
     fileStates (conv (handleConvertAll w).1) !! i = Some s) ∧
  (∀ i s, fileStates (conv w) !! i = Some s → status s = Error →
     ∃ l, ops (ffmpeg (env (handleConvertAll w).1)) = ops (ffmpeg (env w)) ++ l ∧
          OpDelete (inputName i s) ∈ l).
Proof.
  assert (∀ v, Forall (λ s, status s = Done) (fileStates (conv v)) →
               handleConvertAll v =
                 ({| conv := {| fileStates := fileStates (conv v);
                                targetFormat := targetFormat (conv v);
                                isConverting := false |};
                     env := env v |}, Ok tt)) as Hnoop.
  { intros v Hv. rewrite handleConvertAll_unfold.
    rewrite convert_from_all_done by done. reflexivity. }
  split; [|split; [|split]].
  - intros Hall. by rewrite (Hnoop w Hall).
  - intros Hall. rewrite (Hnoop _ Hall). f_equal.
    destruct (handleConvertAll_flags w) as [Hc _].
    destruct (handleConvertAll w).1 as [[fs tf ic] e]. simpl in *. by subst ic.
  - apply handleConvertAll_skips.
  - intros i s Hi Hs. destruct (handleConvertAll_ops w) as (l & Hl & Hin).
    exists l. split; [done|]. apply Hin; [done|]. by rewrite Hs.
Qed.

Lemma convertAll_skips_done_records_witness :
  handleConvertAll (handleConvertAll (one_photo plain_engine)).1 =
    ((handleConvertAll (one_photo plain_engine)).1, Ok tt).
Proof.
  apply (convertAll_skips_done_records (one_photo plain_engine)).
  vm_compute. repeat constructor.
Defined.

(** ** The record invariant *)


(** The step at which a done record is overwritten: the call is waiting
    for the deletion of the output, its record is done with its URL, the
    deletion throws, and the record is failed with the URL still on it. *)
Lemma resume_overwrites_done fmt s i rest w x url e' err :
  fileStates (conv w) !! i = Some x →
  status x = Done →
  outputUrl x = Some url →
  Engine.deleteFile (outputName i fmt) (ffmpeg (env w)) = (e', Throw err) →
  (resume fmt s i rest DeletingOutput w).2 = Running fmt s i rest CleaningUp ∧
  fileStates (conv (resume fmt s i rest DeletingOutput w).1) !! i =
    Some {| file := file x; status := Error; outputUrl := Some url;
            error := Some "Conversion failed" |}.
Proof.
  intros Hx Hs Hu Hd. unfold resume. unfold_monad.
  cbn [fst snd conv env ffmpeg blobStore blobCount fileStates targetFormat isConverting].
  rewrite Hd.
  cbn [fst snd conv env ffmpeg blobStore blobCount fileStates targetFormat isConverting].
  split; [done|].
  rewrite assign_at_lookup, decide_True, Hx by done.
  unfold mark_error. simpl. by rewrite Hu.
Qed.

(** C9. Whenever writing, executing and reading succeed and the deletion
    of the output file then throws, the record - which the code had
    already marked done, with its output URL - ends with status error
    and the message "Conversion failed", while its output URL stays set
    and the payload stays registered.  The witness is an execution in
    which the engine refuses that deletion. *)
Theorem output_deletion_failure_overwrites_done
    (fmt : TargetFormat) (s : FileState) (i : nat) (w : World) (x : FileState)
    (data out : bytes) (e1 e2 e3 e4 : FFmpeg) (err : JsError) :
  fileStates (conv w) !! i = Some x →
  content (file s) = Some data →
  Engine.writeFile (inputName i s) data (ffmpeg (env w)) = (e1, Ok tt) →
  Engine.exec ["-i"; inputName i s; outputName i fmt] e1 = (e2, Ok tt) →
  Engine.readFile (outputName i fmt) e2 = (e3, Ok out) →
  Engine.deleteFile (outputName i fmt) e3 = (e4, Throw err) →
  (convertFile fmt s i w).2 = Ok tt ∧
  fileStates (conv (convertFile fmt s i w).1) !! i =
    Some {| file := file x; status := Error;
            outputUrl := Some (next_url (env w));
            error := Some "Conversion failed" |} ∧
  blobStore (env (convertFile fmt s i w).1) !! next_url (env w) =
    Some {| blob_data := out; blob_type := "image/" +:+ format_text fmt |}.
Proof.
  intros Hx Hc Hw He Hr Hd. split; [apply convertFile_spec|]. split.
  - rewrite convertFile_lookup, decide_True, Hx by done.
    unfold outcome, engine_steps. by rewrite Hc, Hw, He, Hr, Hd.
  - unfold convertFile, try_finally, attempt, cleanup. unfold_monad.
    cbn [fst snd conv env ffmpeg blobStore blobCount fileStates targetFormat isConverting].
    rewrite Hc.
    cbn [fst snd conv env ffmpeg blobStore blobCount fileStates targetFormat isConverting].
    rewrite Hw.
    cbn [fst snd conv env ffmpeg blobStore blobCount fileStates targetFormat isConverting].
    rewrite He.
    cbn [fst snd conv env ffmpeg blobStore blobCount fileStates targetFormat isConverting].
    rewrite Hr.
    cbn [fst snd conv env ffmpeg blobStore blobCount fileStates targetFormat isConverting].
    rewrite Hd.
    cbn [fst snd conv env ffmpeg blobStore blobCount fileStates targetFormat isConverting].
    engine_case; apply lookup_insert_eq.
Qed.

Lemma output_deletion_failure_overwrites_done_witness :
  fileStates (conv (convertFile png (idle photo) 0
                      (one_photo (engine_replying [] [Fails]))).1) !! 0 =
    Some {| file := photo; status := Error; outputUrl := Some "blob:0";
            error := Some "Conversion failed" |}.
Proof.
  eapply (output_deletion_failure_overwrites_done png (idle photo) 0
            (one_photo (engine_replying [] [Fails])) (idle photo)).
  - reflexivity.
  - reflexivity.
  - reflexivity.
  - reflexivity.
  - reflexivity.
  - reflexivity.
Defined.

(** C6. On the code the invariant and the transition relation break.
    With an engine that refuses the deletion of the output, the single
    record goes idle, converting, done, error, and ends with status
    error while its output URL is set.  The same happens with a
    faultless engine when handleConvertAll is started twice with
    Shift+C: the second call's deletion of the output finds it gone. *)
Theorem done_record_overwritten_by_error :
  (let sys := system_of (one_photo (engine_replying [] [Fails])) in
   let evs := shift_c :: repeat (Settle 0) 6 in
   statuses_along evs sys =
     [[Idle]; [Converting]; [Converting]; [Converting]; [Converting];
      [Done]; [Error]; [Error]] ∧
   fileStates (conv (world (run evs sys))) =
     [{| file := photo; status := Error; outputUrl := Some "blob:0";
         error := Some "Conversion failed" |}]) ∧
  (let sys := system_of (one_photo plain_engine) in
   let evs := [shift_c; Settle 0; shift_c; Settle 1; Settle 0; Settle 1; Settle 0;
               Settle 1; Settle 0; Settle 1; Settle 0; Settle 1; Settle 0; Settle 1] in
   statuses_along evs sys =
     [[Idle]; [Converting]; [Converting]; [Converting]; [Converting]; [Converting];
      [Converting]; [Converting]; [Converting]; [Done]; [Done]; [Done]; [Error];
      [Error]; [Error]] ∧
   fileStates (conv (world (run evs sys))) =
     [{| file := photo; status := Error; outputUrl := Some "blob:1";
         error := Some "Conversion failed" |}]) ∧
  may_follow Done Error = false ∧
  ¬ consistent {| file := photo; status := Error; outputUrl := Some "blob:0";
                  error := Some "Conversion failed" |}.
Proof.
  split; [vm_compute; split; reflexivity|].
  split; [vm_compute; split; reflexivity|].
  split; [reflexivity|].
  intros [Hout _]. simpl in Hout.
  assert (Error = Done) by (apply Hout; eauto). discriminate.
Qed.

(** ** Clearing the batch *)

(** C8 (amended). Clearing empties the batch, discards the Converter
    with its records and shows the drop zone again; it leaves the
    browser as it is, so every payload registered before the clear is
    still registered after it. *)
Theorem clear_resets_the_batch_only (a : App) :
  files (clearFiles a) = [] ∧
  mounted (clearFiles a) = None ∧
  output_urls (clearFiles a) = [] ∧
  main_view (clearFiles a) = DropzoneView ∧
  browser (clearFiles a) = browser a ∧
  (∀ url, registered url (browser a) → registered url (browser (clearFiles a))).
Proof. done. Qed.

Lemma clear_resets_the_batch_only_witness :
  registered "blob:0" (browser (clearFiles converted_photo)).
Proof.
  apply (clear_resets_the_batch_only converted_photo).
  vm_compute. eexists. reflexivity.
Defined.

(** C8 as stated fails: after photo.HEIC.jpg was converted and the batch
    cleared, the output payload of its record is still registered. *)
Lemma clear_keeps_payloads_registered : ¬ clear_releases converted_photo.
Proof.
  intros H. apply (H "blob:0").
  - vm_compute. apply list_elem_of_here.
  - vm_compute. eexists. reflexivity.
Qed.

(** * Further properties of the code *)

(** ** Payloads and links *)

Lemma blob_url_inj k k' : blob_url k = blob_url k' → k = k'.
Proof.
  unfold blob_url. intros H. apply (inj (String.app "blob:")) in H.
  by apply (inj pretty).
Qed.

Lemma next_url_nonempty b : next_url b ≠ "".
Proof. unfold next_url. simpl. discriminate. Qed.

(** What a call of convertFile does to the registry: nothing, when a
    step before the read's result is stored throws; one new entry under
    the next URL otherwise. *)
Lemma convertFile_blobs fmt s i w :
  let w' := (convertFile fmt s i w).1 in
  let o := outcome fmt s i (ffmpeg (env w)) in
  (before_done o ∧ blobStore (env w') = blobStore (env w) ∧
   blobCount (env w') = blobCount (env w)) ∨
  ((o = Converted ∨ o = DeleteThrew) ∧
   ∃ data,
     blobStore (env w') =
       <[next_url (env w) := {| blob_data := data;
                                blob_type := "image/" +:+ format_text fmt |}]>
         (blobStore (env w)) ∧
     blobCount (env w') = S (blobCount (env w))).
Proof.
  unfold convertFile, try_finally, attempt, cleanup, outcome, engine_steps, before_done.
  unfold_monad.
  cbn [fst snd conv env ffmpeg blobStore blobCount fileStates targetFormat isConverting].
  destruct (content (file s)) as [data|];
    cbn [fst snd conv env ffmpeg blobStore blobCount fileStates targetFormat isConverting].
  2: { engine_case; left; auto. }
  repeat engine_case;
    first [ left; split; [auto | split; reflexivity]
          | right; split; [auto | eexists; split; reflexivity] ].
Qed.

Lemma convertFile_registered fmt s i w url :
  registered url (env w) → registered url (env (convertFile fmt s i w).1).
Proof.
  unfold registered. intros H.
  destruct (convertFile_blobs fmt s i w) as [(_ & -> & _)|(_ & data & -> & _)]; [done|].
  rewrite lookup_insert. case_decide; [by eexists | done].
Qed.

Lemma convertFile_keeps_blob fmt s i w k :
  (k < blobCount (env w))%nat →
  blobStore (env (convertFile fmt s i w).1) !! blob_url k = blobStore (env w) !! blob_url k ∧
  (blobCount (env w) ≤ blobCount (env (convertFile fmt s i w).1))%nat.
Proof.
  intros Hk.
  destruct (convertFile_blobs fmt s i w) as [(_ & -> & ->)|(_ & data & -> & ->)];
    [done|].
  split; [|lia]. apply lookup_insert_ne.
  unfold next_url. fold (blob_url (blobCount (env w))).
  intros H. apply blob_url_inj in H. lia.
Qed.

Lemma convert_from_registered fmt rendered i w url :
  registered url (env w) → registered url (env (convert_from fmt rendered i w).1).
Proof.
  revert i w. induction rendered as [|s rest IH]; intros i w H; [done|].
  loop_step s Hs; [by apply IH|]. by apply IH, convertFile_registered.
Qed.

Lemma convert_from_keeps_blob fmt rendered i w k :
  (k < blobCount (env w))%nat →
  blobStore (env (convert_from fmt rendered i w).1) !! blob_url k =
    blobStore (env w) !! blob_url k ∧
  (blobCount (env w) ≤ blobCount (env (convert_from fmt rendered i w).1))%nat.
Proof.
  revert i w. induction rendered as [|s rest IH]; intros i w Hk; [done|].
  loop_step s Hs; [by apply IH|].
  destruct (convertFile_keeps_blob fmt s i w k Hk) as [Heq Hle].
  destruct (IH (S i) (convertFile fmt s i w).1) as [Heq' Hle']; [lia|].
  split; [by rewrite Heq', Heq | lia].
Qed.



(** handleConvertAll neither adds, drops nor reorders records. *)
Lemma handleConvertAll_files (w : World) :
  file <$> fileStates (conv (handleConvertAll w).1) = file <$> fileStates (conv w).
Proof.
  apply list_eq. intros i. rewrite !list_lookup_fmap.
  destruct (fileStates (conv w) !! i) as [s|] eqn:Hi.
  - destruct (decide (status s = Done)) as [Hs|Hs].
    + by rewrite (handleConvertAll_skips w i s Hi Hs).
    + rewrite (handleConvertAll_record w i s Hi Hs). simpl.
      by rewrite net_change_file.
  - apply lookup_ge_None in Hi.
    assert (length (fileStates (conv (handleConvertAll w).1)) =
            length (fileStates (conv w))) as Hlen.
    { rewrite handleConvertAll_unfold. cbn [setIsConverting fst conv fileStates].
      by rewrite convert_from_length. }
    rewrite (proj2 (lookup_ge_None _ _)) by lia. done.
Qed.


Lemma truthy_nonempty url : url ≠ "" → Js.truthy url = true.
Proof.
  intros H. unfold Js.truthy. destruct (String.eqb_spec url ""); [done | reflexivity].
Qed.

Lemma convertFile_well_linked fmt s i w :
  well_linked w → well_linked (convertFile fmt s i w).1.
Proof.
  intros H s' Hin. apply list_elem_of_lookup in Hin as [j Hj].
  rewrite convertFile_lookup in Hj. destruct (decide (i = j)) as [->|Hne].
  - destruct (fileStates (conv w) !! j) as [x|] eqn:Hx; simpl in Hj; [|done].
    injection Hj as <-.
    destruct (H x) as [Hd Hu]; [by eapply list_elem_of_lookup_2|].
    destruct (convertFile_blobs fmt s j w) as [(Hb & Hst & _)|(Ho & data & Hst & _)].
    + assert (net_change (outcome fmt s j (ffmpeg (env w))) (next_url (env w)) x =
              mark_error (mark_converting x)) as ->
        by (by destruct Hb as [->|[->|[->| ->]]]).
      split; [done|]. simpl. intros url Hurl. destruct (Hu url Hurl) as [? Hreg].
      split; [done|]. unfold registered. by rewrite Hst.
    + assert (outputUrl (net_change (outcome fmt s j (ffmpeg (env w)))
                           (next_url (env w)) x) = Some (next_url (env w))) as Hnew
        by (by destruct Ho as [-> | ->]).
      split; [intros _; rewrite Hnew; by eexists|].
      intros url. rewrite Hnew. intros [= <-]. split; [apply next_url_nonempty|].
      unfold registered. rewrite Hst, lookup_insert_eq. by eexists.
  - destruct (H s') as [Hd Hu]; [by eapply list_elem_of_lookup_2|].
    split; [done|]. intros url Hurl. destruct (Hu url Hurl) as [? Hreg].
    split; [done|]. by apply convertFile_registered.
Qed.

Lemma convert_from_well_linked fmt rendered i w :
  well_linked w → well_linked (convert_from fmt rendered i w).1.
Proof.
  revert i w. induction rendered as [|s rest IH]; intros i w H; [done|].
  loop_step s Hs; [by apply IH|]. by apply IH, convertFile_well_linked.
Qed.

Lemma handleConvertAll_well_linked w :
  well_linked w → well_linked (handleConvertAll w).1.
Proof.
  intros H. rewrite handleConvertAll_unfold.
  apply (convert_from_well_linked (targetFormat (conv w)) (fileStates (conv w)) 0
           (setIsConverting true w).1).
  exact H.
Qed.

Lemma initial_well_linked fs b : well_linked {| conv := initial_state fs; env := b |}.
Proof.
  intros s Hs. cbn [conv initial_state fileStates] in Hs.
  apply list_elem_of_fmap in Hs as (f & -> & _). by split.
Qed.

(** X8. Starting from a freshly mounted Converter, after any number of
    calls of handleConvertAll every done record holds an output URL,
    every output URL a record holds is non-empty and registered with the
    browser, and the fallback check mark (done without output URL) is
    shown for no record. *)
Theorem output_links_stay_live (fs : list File) (b : Browser) (n : nat) :
  let w := Nat.iter n (λ w, (handleConvertAll w).1) {| conv := initial_state fs; env := b |} in
  well_linked w ∧
  Forall (λ s, fallback_check s = false) (fileStates (conv w)).
Proof.
  cbv zeta.
  assert (well_linked (Nat.iter n (λ w, (handleConvertAll w).1)
                         {| conv := initial_state fs; env := b |})) as H.
  { induction n as [|n IH]; [apply initial_well_linked|].
    simpl. by apply handleConvertAll_well_linked. }
  split; [done|]. apply Forall_forall. intros s Hs.
  destruct (H s Hs) as [Hd Hu]. unfold fallback_check.
  destruct (decide (status s = Done)) as [Hdone|Hdone].
  - destruct (Hd Hdone) as [url Hurl]. rewrite Hurl.
    destruct (Hu url Hurl) as [Hne _]. rewrite truthy_nonempty by done.
    simpl. apply andb_false_r.
  - by rewrite bool_decide_false.
Qed.

Lemma downloadAll_links fmt (l : list FileState) :
  (∀ s, s ∈ l → status s = Done → ∃ url, outputUrl s = Some url ∧ url ≠ "") →
  omap (λ s,
      match outputUrl s with
      | Some url =>
          if Js.truthy url && bool_decide (status s = Done)
          then Some {| href := url; download := download_name s fmt |}
          else None
      | None => None
      end) l
  = link_of fmt <$> filter (λ s, status s = Done) l.
Proof.
  induction l as [|s l IH]; intros H; [done|].
  cbn [omap list_omap]. rewrite filter_cons.
  rewrite IH by (intros; apply H; [by apply list_elem_of_further | done]).
  destruct (decide (status s = Done)) as [Hs|Hs].
  - destruct (H s (list_elem_of_here _ _) Hs) as (url & Hurl & Hne).
    rewrite Hurl, truthy_nonempty, bool_decide_true by done. simpl.
    unfold link_of. by rewrite Hurl.
  - rewrite bool_decide_false by done.
    destruct (outputUrl s); [by rewrite andb_false_r | done].
Qed.

(** X9. In a batch whose output URLs are live, downloadAll clicks exactly
    one anchor per done record, in batch order, with the record's URL
    and the download name built from the current target format, and
    every anchor points at a registered payload. *)
Theorem downloadAll_one_link_per_done_record (w : World) :
  well_linked w →
  downloadAll w =
    link_of (targetFormat (conv w)) <$> filter (λ s, status s = Done) (fileStates (conv w)) ∧
  Forall (λ l, registered (href l) (env w)) (downloadAll w).
Proof.
  intros H.
  assert (downloadAll w =
          link_of (targetFormat (conv w)) <$>
            filter (λ s, status s = Done) (fileStates (conv w))) as Heq.
  { unfold downloadAll. apply downloadAll_links. intros s Hs Hd.
    destruct (H s Hs) as [Hsome Hu]. destruct (Hsome Hd) as [url Hurl].
    exists url. split; [done|]. by apply Hu. }
  split; [done|]. rewrite Heq. apply Forall_fmap, Forall_forall.
  intros s Hs. apply list_elem_of_filter in Hs as [Hd Hs].
  destruct (H s Hs) as [Hsome Hu]. destruct (Hsome Hd) as [url Hurl].
  simpl. rewrite Hurl. simpl. by apply Hu.
Qed.

Lemma downloadAll_one_link_per_done_record_witness :
  downloadAll (handleConvertAll scenario_b).1 =
    link_of png <$> filter (λ s, status s = Done)
                      (fileStates (conv (handleConvertAll scenario_b).1)).
Proof.
  apply (downloadAll_one_link_per_done_record (handleConvertAll scenario_b).1).
  apply handleConvertAll_well_linked, initial_well_linked.
Defined.

Lemma convert_from_blobCount fmt rendered i w :
  (blobCount (env w) ≤ blobCount (env (convert_from fmt rendered i w).1))%nat.
Proof.
  revert i w. induction rendered as [|s rest IH]; intros i w; [done|].
  loop_step s Hs; [apply IH|]. etrans; [|apply IH].
  destruct (convertFile_blobs fmt s i w) as [(_ & _ & ->)|(_ & data & _ & ->)]; lia.
Qed.

(** X7. handleConvertAll only ever adds to the object-URL registry: a URL
    registered before the call is registered after it, the payload
    stored under each URL handed out so far is unchanged, and the
    counter of handed-out URLs does not go down. *)
Theorem convertAll_keeps_every_payload (w : World) :
  (∀ url, registered url (env w) → registered url (env (handleConvertAll w).1)) ∧
  (∀ k b, (k < blobCount (env w))%nat →
     blobStore (env w) !! blob_url k = Some b →
     blobStore (env (handleConvertAll w).1) !! blob_url k = Some b) ∧
  (blobCount (env w) ≤ blobCount (env (handleConvertAll w).1))%nat.
Proof.
  rewrite handleConvertAll_unfold.
  split; [|split].
  - intros url H.
    exact (convert_from_registered _ _ 0 (setIsConverting true w).1 url H).
  - intros k b Hk Hb.
    destruct (convert_from_keeps_blob (targetFormat (conv w)) (fileStates (conv w)) 0
                (setIsConverting true w).1 k Hk) as [Heq _].
    etrans; [exact Heq | exact Hb].
  - exact (convert_from_blobCount _ _ 0 (setIsConverting true w).1).
Qed.

Lemma convertAll_keeps_every_payload_witness :
  registered "blob:0"
    (env (handleConvertAll (handleConvertAll (one_photo plain_engine)).1).1).
Proof.
  apply (convertAll_keeps_every_payload (handleConvertAll (one_photo plain_engine)).1).
  vm_compute. eexists. reflexivity.
Defined.


(** ** The controls after a pass *)




(** ** Format changes while a call is running *)

Lemma enter_format fmt rendered i w f :
  enter fmt rendered i (setTargetFormat f w).1 =
    ((setTargetFormat f (enter fmt rendered i w).1).1, (enter fmt rendered i w).2).
Proof.
  revert i. induction rendered as [|s rest IH]; intros i; cbn [enter]; [done|].
  destruct (decide (status s ≠ Done)); [done | apply IH].
Qed.

Lemma resume_format fmt s i rest stage w f :
  resume fmt s i rest stage (setTargetFormat f w).1 =
    ((setTargetFormat f (resume fmt s i rest stage w).1).1,
     (resume fmt s i rest stage w).2).
Proof.
  destruct stage; unfold resume.
  6: { rewrite <- enter_format. f_equal. unfold_monad.
       cbn [fst snd conv env ffmpeg blobStore blobCount fileStates targetFormat isConverting].
       by engine_case. }
  all: unfold_monad;
    cbn [fst snd conv env ffmpeg blobStore blobCount fileStates targetFormat isConverting].
  - by destruct (content (file s)).
  - by engine_case.
  - by engine_case.
  - by engine_case.
  - by engine_case.
Qed.

Lemma setTargetFormat_twice f g w :
  (setTargetFormat g (setTargetFormat f w).1).1 = (setTargetFormat g w).1.
Proof. done. Qed.

Lemma format_event_not_settle ev : format_event ev = true → settle_event ev = false.
Proof. by destruct ev. Qed.

Lemma react_format_event ev sys1 sys2 f :
  format_event ev = true →
  calls sys1 = calls sys2 →
  world sys1 = (setTargetFormat f (world sys2)).1 →
  calls (react ev sys1) = calls sys2 ∧
  ∃ g, world (react ev sys1) = (setTargetFormat g (world sys2)).1.
Proof.
  intros Hev Hc Hw.
  assert (∀ g, calls (call_setTargetFormat g sys1) = calls sys2 ∧
               ∃ g', world (call_setTargetFormat g sys1) =
                       (setTargetFormat g' (world sys2)).1) as Hset.
  { intros g. split; [done|]. exists g. cbn [call_setTargetFormat world].
    by rewrite Hw, setTargetFormat_twice. }
  destruct ev as [ty sh k| | |g|t]; try done; cbn [react].
  - unfold handleKeyDown. simpl in Hev.
    destruct ty; [done|]. destruct sh; [|done]. simpl in Hev.
    destruct (String.eqb (Js.toLowerCase k) "j"); [apply Hset|].
    destruct (String.eqb (Js.toLowerCase k) "p"); [apply Hset|].
    destruct (String.eqb (Js.toLowerCase k) "w"); [apply Hset|]. done.
  - destruct (isConverting (conv (world sys1))); [eauto | apply Hset].
Qed.

Lemma react_settle t sys1 sys2 f :
  calls sys1 = calls sys2 →
  world sys1 = (setTargetFormat f (world sys2)).1 →
  calls (react (Settle t) sys1) = calls (react (Settle t) sys2) ∧
  world (react (Settle t) sys1) = (setTargetFormat f (world (react (Settle t) sys2))).1.
Proof.
  intros Hc Hw. cbn [react]. rewrite Hc.
  destruct (calls sys2 !! t) as [[fmt s i rest stage|]|]; [|done|done].
  rewrite Hw, resume_format.
  destruct (resume fmt s i rest stage (world sys2)) as [w' c']. done.
Qed.

Lemma run_format_events evs sys1 sys2 f :
  Forall (λ ev, format_event ev || settle_event ev = true) evs →
  calls sys1 = calls sys2 →
  world sys1 = (setTargetFormat f (world sys2)).1 →
  calls (run evs sys1) = calls (run (List.filter settle_event evs) sys2) ∧
  ∃ g, world (run evs sys1) =
         (setTargetFormat g (world (run (List.filter settle_event evs) sys2))).1.
Proof.
  intros Hevs. revert sys1 sys2 f.
  induction Hevs as [|ev evs Hev _ IH]; intros sys1 sys2 f Hc Hw.
  { split; [done|]. by exists f. }
  cbn [run foldl List.filter]. destruct (format_event ev) eqn:Hf.
  - rewrite (format_event_not_settle ev Hf).
    destruct (react_format_event ev sys1 sys2 f Hf Hc Hw) as [Hc' [g Hw']].
    exact (IH _ _ g Hc' Hw').
  - simpl in Hev. rewrite Hev. destruct ev as [| | | |t]; try done.
    destruct (react_settle t sys1 sys2 f Hc Hw) as [Hc' Hw'].
    cbn [foldl]. exact (IH _ _ f Hc' Hw').
Qed.

(** X11. A call of handleConvertAll works with the target format it was
    started with: in a run made of format changes (the select, or
    Shift+J, Shift+P, Shift+W) and of settling awaits, dropping the
    format changes leaves the calls, the records, the converting flag,
    the engine and the registry exactly the same. *)
Theorem format_changes_do_not_reach_running_calls (evs : list Event) (sys : System) :
  Forall (λ ev, format_event ev || settle_event ev = true) evs →
  calls (run evs sys) = calls (run (List.filter settle_event evs) sys) ∧
  fileStates (conv (world (run evs sys))) =
    fileStates (conv (world (run (List.filter settle_event evs) sys))) ∧
  isConverting (conv (world (run evs sys))) =
    isConverting (conv (world (run (List.filter settle_event evs) sys))) ∧
  env (world (run evs sys)) = env (world (run (List.filter settle_event evs) sys)).
Proof.
  intros Hevs.
  destruct (run_format_events evs sys sys (targetFormat (conv (world sys))) Hevs eq_refl)
    as [Hc [g Hw]].
  { by destruct (world sys) as [[? ? ?] ?]. }
  split; [done|]. by rewrite Hw.
Qed.

Lemma format_changes_do_not_reach_running_calls_witness :
  let evs := [Settle 0; KeyDown false true "J"; Settle 0; Settle 0; Settle 0;
              Settle 0; Settle 0] in
  let sys := run [shift_c] (system_of (one_photo plain_engine)) in
  env (world (run evs sys)) = env (world (run (List.filter settle_event evs) sys)).
Proof.
  apply (format_changes_do_not_reach_running_calls
           [Settle 0; KeyDown false true "J"; Settle 0; Settle 0; Settle 0;
            Settle 0; Settle 0]
           (run [shift_c] (system_of (one_photo plain_engine)))).
  repeat constructor.
Defined.

(** The payload is still PNG, the download is named .jpeg. *)
Example format_changed_while_converting :
  let evs := [Settle 0; KeyDown false true "J"; Settle 0; Settle 0; Settle 0;
              Settle 0; Settle 0; KeyDown false true "D"] in
  let sys := run (shift_c :: evs) (system_of (one_photo plain_engine)) in
  clicked sys = [{| href := "blob:0"; download := "photo.jpeg" |}] ∧
  blob_type <$> blobStore (env (world sys)) !! "blob:0" = Some "image/png" ∧
  ops (ffmpeg (env (world sys))) =
    [ OpWrite "input_0_photo.HEIC.jpg";
      OpExec ["-i"; "input_0_photo.HEIC.jpg"; "output_0.png"];
      OpRead "output_0.png"; OpDelete "output_0.png";
      OpDelete "input_0_photo.HEIC.jpg" ].
Proof. vm_compute. repeat split. Qed.

(** ** The key handler of the Converter *)

Lemma downloadAll_none_done w :
  some_done (fileStates (conv w)) = false → downloadAll w = [].
Proof.
  unfold some_done, downloadAll. generalize (targetFormat (conv w)).
  induction (fileStates (conv w)) as [|s l IH]; intros fmt H; [done|].
  simpl in H. apply orb_false_iff in H as [Hs Hl].
  cbn [omap list_omap]. destruct (outputUrl s); [|by apply IH].
  rewrite Hs, andb_false_r. by apply IH.
Qed.

(** X12. Shift+D does what the download-all button does in every state:
    the key path has no test for a done record, but with none done
    downloadAll clicks nothing. *)
Theorem download_key_agrees_with_button (key : string) (sys : System) :
  Js.toLowerCase key = "d" →
  react (KeyDown false true key) sys = react ClickDownloadAll sys.
Proof.
  intros Hk. cbn [react]. unfold handleKeyDown. rewrite Hk. simpl.
  destruct (some_done (fileStates (conv (world sys)))) eqn:Hd; [done|].
  unfold call_downloadAll. rewrite (downloadAll_none_done _ Hd), app_nil_r.
  by destruct sys.
Qed.

Lemma download_key_agrees_with_button_witness :
  react (KeyDown false true "D") (system_of scenario_b) =
  react ClickDownloadAll (system_of scenario_b).
Proof. apply (download_key_agrees_with_button "D"). reflexivity. Defined.

(** X13. A key event other than Shift+C outside a text field starts no
    call and leaves the records, the converting flag, the engine and the
    registry alone; in a text field, or without Shift, it changes
    nothing at all. *)
Theorem keys_other_than_convert_keep_the_batch
    (typing shiftKey : bool) (key : string) (sys : System) :
  starts_by_key (KeyDown typing shiftKey key) = false →
  let sys' := react (KeyDown typing shiftKey key) sys in
  calls sys' = calls sys ∧
  fileStates (conv (world sys')) = fileStates (conv (world sys)) ∧
  isConverting (conv (world sys')) = isConverting (conv (world sys)) ∧
  env (world sys') = env (world sys) ∧
  (typing = true ∨ shiftKey = false → sys' = sys).
Proof.
  intros Hk. cbn [react]. unfold handleKeyDown. simpl in Hk.
  destruct typing; [by intuition|]. destruct shiftKey; [|by intuition].
  simpl in Hk. rewrite Hk.
  destruct (String.eqb (Js.toLowerCase key) "j"); [by intuition|].
  destruct (String.eqb (Js.toLowerCase key) "p"); [by intuition|].
  destruct (String.eqb (Js.toLowerCase key) "w"); [by intuition|].
  destruct (String.eqb (Js.toLowerCase key) "d"); by intuition.
Qed.

Lemma keys_other_than_convert_keep_the_batch_witness :
  env (world (react (KeyDown false true "W") (system_of scenario_b))) =
  env (world (system_of scenario_b)).
Proof.
  apply (keys_other_than_convert_keep_the_batch false true "W" (system_of scenario_b)).
  reflexivity.
Defined.

Lemma lower_idemp c : Js.lower (Js.lower c) = Js.lower c.
Proof. by destruct c as [[] [] [] [] [] [] [] []]. Qed.

Lemma toLowerCase_idemp s : Js.toLowerCase (Js.toLowerCase s) = Js.toLowerCase s.
Proof. induction s as [|c s IH]; [done|]. simpl. by rewrite lower_idemp, IH. Qed.

(** X14. handleKeyDown does not tell the case of the key: an event has the
    effect of the same event with its key in lower case. *)
Theorem key_case_is_ignored (typing shiftKey : bool) (key : string) (sys : System) :
  react (KeyDown typing shiftKey (Js.toLowerCase key)) sys =
  react (KeyDown typing shiftKey key) sys.
Proof. cbn [react]. unfold handleKeyDown. by rewrite toLowerCase_idemp. Qed.

(** X15. Of the combinations the shortcuts help lists, Ctrl+D (Download
    All) and Shift+A (Select AVIF Format), pressed as listed, leave the
    Converter as it is: downloading needs Shift, and no case of the
    handler answers to the key A. *)
Theorem listed_shortcuts_without_effect (keys : list string) (description : string)
    (sys : System) :
  (keys, description) ∈ shortcuts →
  description = "Download All" ∨ description = "Select AVIF Format" →
  react (press keys) sys = sys.
Proof.
  intros Hin Hd. unfold shortcuts in Hin.
  repeat (apply elem_of_cons in Hin as [[= -> ->]|Hin];
          [by destruct Hd as [Hd|Hd]; try discriminate Hd|]).
  by apply elem_of_nil in Hin.
Qed.

Lemma listed_shortcuts_without_effect_witness :
  react (press ["Ctrl"; "D"]) (system_of scenario_b) = system_of scenario_b.
Proof.
  apply (listed_shortcuts_without_effect ["Ctrl"; "D"] "Download All").
  - unfold shortcuts. apply list_elem_of_further, list_elem_of_here.
  - by left.
Defined.

(** ** The shortcuts help of App *)

Lemma app_handleKeyDown_no_escape k show :
  is_escape k = false →
  app_handleKeyDown (typing k) (shiftKey k) (key k) show = xorb show (toggles_help k).
Proof.
  unfold is_escape, app_handleKeyDown, toggles_help. intros ->.
  by destruct (String.eqb (key k) "?"), (shiftKey k), (typing k), show.
Qed.

Lemma app_keys_no_escape ks show :
  Forall (λ k, is_escape k = false) ks →
  app_keys ks show = xorb show (Nat.odd (length (List.filter toggles_help ks))).
Proof.
  intros H. revert show. induction H as [|k ks Hk _ IH]; intros show.
  - simpl. by destruct show.
  - unfold app_keys in *. cbn [foldl List.filter]. rewrite IH.
    rewrite (app_handleKeyDown_no_escape k show Hk).
    destruct (toggles_help k); cbn [length].
    + rewrite Nat.odd_succ, <- Nat.negb_odd.
      by destruct show, (Nat.odd _).
    + by rewrite xorb_false_r.
Qed.

(** X21. The shortcuts help under the key handler of App: as long as
    Escape is not pressed, the help is open or closed according to the
    parity of the presses of ? with Shift outside a text field; Escape
    closes it whatever came before. *)
Theorem shortcuts_help_after_keys (ks : list Key) (show : bool) :
  Forall (λ k, is_escape k = false) ks →
  app_keys ks show = xorb show (Nat.odd (length (List.filter toggles_help ks))) ∧
  ∀ before k, is_escape k = true →
    app_keys (before ++ k :: ks) show = Nat.odd (length (List.filter toggles_help ks)).
Proof.
  intros H. split; [by apply app_keys_no_escape|].
  intros before k Hk.
  assert (app_keys (before ++ k :: ks) show =
          app_keys ks (app_handleKeyDown (typing k) (shiftKey k) (key k)
                         (app_keys before show))) as ->.
  { unfold app_keys. by rewrite foldl_app. }
  rewrite app_keys_no_escape by done.
  unfold app_handleKeyDown. unfold is_escape in Hk. by rewrite Hk.
Qed.

Lemma shortcuts_help_after_keys_witness :
  app_keys [ {| typing := false; shiftKey := true; key := "?" |};
             {| typing := true; shiftKey := true; key := "?" |};
             {| typing := false; shiftKey := true; key := "?" |};
             {| typing := false; shiftKey := true; key := "?" |} ] false = true.
Proof.
  destruct (shortcuts_help_after_keys
              [ {| typing := false; shiftKey := true; key := "?" |};
                {| typing := true; shiftKey := true; key := "?" |};
                {| typing := false; shiftKey := true; key := "?" |};
                {| typing := false; shiftKey := true; key := "?" |} ] false) as [H _].
  - repeat constructor.
  - exact H.
Defined.

(** ** The batch under the commands of App *)









(** A selection that arrives while the Converter is shown (a URL import
    that ends after files were dropped) replaces the files of App and
    leaves the Converter with the records of the files dropped before. *)
Example late_import_keeps_old_records :
  let p := page_run [FilesSelected two_files; FilesSelected [photo]]
             (empty_page (fresh_browser plain_engine)) in
  files (page_app p) = [photo] ∧
  (fileStates <$> mounted (page_app p)) = Some (idle <$> two_files).
Proof. vm_compute. split; reflexivity. Qed.

Lemma app_react_registered ev a url :
  registered url (browser a) → registered url (browser (app_react ev a)).
Proof.
  unfold app_react. intros H.
  destruct ev as [fs| | |f], (main_view a); try done.
  - unfold in_converter. destruct (mounted a) as [c|]; [|done]. cbn [browser].
    rewrite handleConvertAll_unfold. cbn [setIsConverting fst env].
    by apply convert_from_registered.
  - unfold in_converter. by destruct (mounted a).
Qed.

(** X19. No command of App - selecting, clearing, converting, choosing a
    format - releases a registered payload, over any sequence of
    commands. *)
Theorem no_command_releases_a_payload (evs : list AppEvent) (a : App) (url : string) :
  registered url (browser a) → registered url (browser (app_run evs a)).
Proof.
  revert a. induction evs as [|ev evs IH]; intros a Ha; [done|].
  apply IH. by apply app_react_registered.
Qed.

Lemma no_command_releases_a_payload_witness :
  registered "blob:0"
    (browser (app_run [ChooseFormat jpeg; ClearBatch; SelectFiles [photo]; ConvertAll]
                converted_photo)).
Proof.
  apply (no_command_releases_a_payload
           [ChooseFormat jpeg; ClearBatch; SelectFiles [photo]; ConvertAll]
           converted_photo "blob:0").
  vm_compute. eexists. reflexivity.
Defined.

(** X20. A batch selected after a clear starts afresh: one idle record per
    file, without output or error, target format png and the converting
    flag down, whatever the previous batch's state was; the browser is
    left as it was. *)
Theorem new_batch_starts_afresh (a : App) (fs : list File) :
  main_view a = ConverterView →
  fs ≠ [] →
  let a' := app_run [ClearBatch; SelectFiles fs] a in
  files a' = fs ∧ mounted a' = Some (initial_state fs) ∧ browser a' = browser a.
Proof.
  intros Hv Hfs. cbv zeta. unfold app_run. cbn [foldl].
  assert (app_react ClearBatch a = clearFiles a) as ->.
  { unfold app_react. by rewrite Hv. }
  by destruct fs.
Qed.

Lemma new_batch_starts_afresh_witness :
  mounted (app_run [ClearBatch; SelectFiles [photo]] converted_photo) =
    Some (initial_state [photo]).
Proof.
  apply (new_batch_starts_afresh converted_photo [photo]); [reflexivity | discriminate].
Defined.

(** ** The engine loader *)

Lemma loader_react_loaded ev l :
  loaded (hook l) = true →
  loaded (hook (loader_react ev l)) = true ∧
  logListeners (hook (loader_react ev l)) = logListeners (hook l) ∧
  (loading l = 0 → loader_react ev l = l).
Proof.
  intros H. destruct ev as [|o]; unfold loader_react, load_begin.
  - by rewrite H.
  - destruct (loading l) as [|n] eqn:Hn; [done|].
    cbn [hook]. destruct o; cbn [load_end loaded logListeners]; by intuition.
Qed.

(** X22. Once loaded is set it stays set, and load returns at its first
    line: later calls register no log listener, and when no earlier call
    is still in flight nothing of the hook's state changes any more - an
    error recorded by an overlapping call included. *)
Theorem loaded_is_final (evs : list LoadEvent) (l : Loader) :
  loaded (hook l) = true →
  loaded (hook (loader_run evs l)) = true ∧
  logListeners (hook (loader_run evs l)) = logListeners (hook l) ∧
  (loading l = 0 → loader_run evs l = l).
Proof.
  revert l. induction evs as [|ev evs IH]; intros l H; [done|].
  destruct (loader_react_loaded ev l H) as (H1 & H2 & H3).
  destruct (IH _ H1) as (H4 & H5 & H6).
  unfold loader_run in *. cbn [foldl]. split; [done|]. split; [congruence|].
  intros Hz. rewrite (H3 Hz) in H6 |- *. by apply H6.
Qed.

Lemma loaded_is_final_witness :
  let l := loader_run [CallLoad; CallLoad; SettleLoad LoadResolved;
                       SettleLoad (LoadRejected (ErrorObject "network"))] initial_loader in
  loader_run [CallLoad; CallLoad] l = l.
Proof.
  apply (loaded_is_final [CallLoad; CallLoad]
           (loader_run [CallLoad; CallLoad; SettleLoad LoadResolved;
                        SettleLoad (LoadRejected (ErrorObject "network"))] initial_loader));
    reflexivity.
Defined.

Lemma loader_react_spinner ev l :
  (isLoading (hook l) = true → loading l ≠ 0) →
  isLoading (hook (loader_react ev l)) = true → loading (loader_react ev l) ≠ 0.
Proof.
  intros H. destruct ev as [|o]; unfold loader_react, load_begin.
  - destruct (loaded (hook l)); [exact H | done].
  - destruct (loading l) as [|n] eqn:Hn; [intros Hi; by destruct (H Hi)|].
    by destruct o.
Qed.

(** X23. From the hook's initial state, whenever no call of load is in
    flight isLoading is false, whether the calls resolved or were
    rejected (the finally block). *)
Theorem spinner_stops_with_the_last_load (evs : list LoadEvent) :
  loading (loader_run evs initial_loader) = 0 →
  isLoading (hook (loader_run evs initial_loader)) = false.
Proof.
  assert (isLoading (hook initial_loader) = true → loading initial_loader ≠ 0) as H by done.
  revert H. generalize initial_loader.
  induction evs as [|ev evs IH]; intros l H Hz.
  - simpl in *. destruct (isLoading (hook l)); [by destruct (H eq_refl Hz) | done].
  - apply (IH (loader_react ev l)); [by apply loader_react_spinner | done].
Qed.

Lemma spinner_stops_with_the_last_load_witness :
  isLoading (hook (loader_run [CallLoad; SettleLoad (LoadRejected OtherValue)]
                     initial_loader)) = false.
Proof.
  apply (spinner_stops_with_the_last_load [CallLoad; SettleLoad (LoadRejected OtherValue)]).
  reflexivity.
Defined.

Lemma loader_run_stays_loaded evs l :
  loaded (hook l) = true → loaded (hook (loader_run evs l)) = true.
Proof.
  revert l. induction evs as [|ev evs IH]; intros l H; [done|].
  apply IH. by apply loader_react_loaded.
Qed.

Lemma loader_run_not_loaded evs l :
  loaded (hook (loader_run evs l)) = false → loaded (hook l) = false.
Proof.
  intros H. destruct (loaded (hook l)) eqn:Hl; [|done].
  rewrite (loader_run_stays_loaded evs l Hl) in H. done.
Qed.

(** X24. As long as the engine has not loaded, every call of load registers
    one more log listener and none is ever removed: the listeners
    registered are the earlier ones plus one for each call. *)
Theorem every_load_adds_a_log_listener (evs : list LoadEvent) (l : Loader) :
  loaded (hook (loader_run evs l)) = false →
  logListeners (hook (loader_run evs l)) =
    logListeners (hook l) + length (List.filter is_call_load evs).
Proof.
  revert l. induction evs as [|ev evs IH]; intros l H.
  - simpl. lia.
  - change (loader_run (ev :: evs) l) with (loader_run evs (loader_react ev l)) in *.
    rewrite (IH _ H). apply loader_run_not_loaded in H.
    assert (loaded (hook l) = false) as Hl.
    { destruct (loaded (hook l)) eqn:Hl; [|done].
      destruct (loader_react_loaded ev l Hl) as [H' _]. congruence. }
    destruct ev as [|o]; cbn [List.filter is_call_load length].
    + unfold loader_react, load_begin. rewrite Hl. cbn [hook logListeners]. lia.
    + unfold loader_react. destruct (loading l); [lia|]. destruct o; simpl; lia.
Qed.

Lemma every_load_adds_a_log_listener_witness :
  logListeners (hook (loader_run
    [CallLoad; SettleLoad (LoadRejected OtherValue); CallLoad;
     SettleLoad (LoadRejected OtherValue); CallLoad] initial_loader)) = 3.
Proof.
  apply (every_load_adds_a_log_listener
           [CallLoad; SettleLoad (LoadRejected OtherValue); CallLoad;
            SettleLoad (LoadRejected OtherValue); CallLoad] initial_loader).
  reflexivity.
Defined.

(** X25. After a rejected load of an engine that is not loaded, App shows
    the failure screen with the text recorded by the hook when that text
    is not empty, and the initialising screen (which has no retry
    button) when it is empty; a retry from there shows the initialising
    screen. *)
Theorem screen_after_a_rejected_load (t : Thrown) (h : Hook) (a : App) :
  loaded h = false →
  (error_text t ≠ "" →
   screen (load_end (LoadRejected t) h) a = FailureScreen (error_text t)) ∧
  (error_text t = "" → screen (load_end (LoadRejected t) h) a = InitScreen) ∧
  (∀ h', load_begin (load_end (LoadRejected t) h) = Some h' → screen h' a = InitScreen).
Proof.
  intros Hl. unfold screen, load_end, load_begin. cbn [loadError loaded]. rewrite Hl.
  split; [|split].
  - intros Hne. by rewrite truthy_nonempty.
  - by intros ->.
  - by intros h' [= <-].
Qed.

Lemma screen_after_a_rejected_load_witness :
  screen (load_end (LoadRejected (ErrorObject "")) initial_hook)
    (empty_app (fresh_browser plain_engine)) = InitScreen.
Proof.
  destruct (screen_after_a_rejected_load (ErrorObject "") initial_hook
              (empty_app (fresh_browser plain_engine))) as (_ & H & _).
  - reflexivity.
  - apply H. reflexivity.
Defined.

(** ** The Dropzone *)

(** X26. The drop, paste and URL handlers of the Dropzone pass files on
    only when the Dropzone is not disabled, and never an empty list:
    drop and paste pass the files of the event, the URL handler one file
    made from the response body, and only for a non-empty input and a
    response that is ok. *)
Theorem dropzone_passes_on_real_selections
    (disabled : bool) (fs give : list File) (st : DropzoneState) :
  (selected (handleDrop disabled fs st).2 = Some give →
   disabled = false ∧ give = fs ∧ give ≠ []) ∧
  (selected (handlePaste disabled fs st).2 = Some give →
   disabled = false ∧ give = fs ∧ give ≠ []) ∧
  (∀ o, selected (handleUrlSubmit disabled o st).2 = Some give →
   disabled = false ∧ urlInput st ≠ "" ∧
   ∃ blob, o = Responded true (Some blob) ∧
           give = [ {| name := url_filename (urlInput st); content := Some blob |} ]).
Proof.
  split; [|split].
  - unfold handleDrop. destruct disabled, fs; simpl; try done. by intros [= <-].
  - unfold handlePaste. destruct disabled, fs; simpl; try done. by intros [= <-].
  - intros o. unfold handleUrlSubmit, Js.truthy.
    destruct (String.eqb_spec (urlInput st) "") as [He|He]; [done|].
    destruct disabled; [done|]. simpl.
    destruct o as [|[] [blob|]]; simpl; try done.
    intros [= <-]. eauto.
Qed.

(** X27. Every submission of a non-empty URL ends with isUrlLoading false;
    it raises the alert exactly when it selects no file; on failure the
    typed URL and the URL field are kept, on success the field is
    emptied and hidden. *)
Theorem url_submit_outcomes (o : FetchOutcome) (st : DropzoneState) :
  urlInput st ≠ "" →
  let r := handleUrlSubmit false o st in
  isUrlLoading r.1 = false ∧
  (alerted r.2 = true ↔ selected r.2 = None) ∧
  (selected r.2 = None → urlInput r.1 = urlInput st ∧ showUrlInput r.1 = showUrlInput st) ∧
  (is_Some (selected r.2) → urlInput r.1 = "" ∧ showUrlInput r.1 = false).
Proof.
  intros Hne. unfold handleUrlSubmit. rewrite truthy_nonempty by done. simpl.
  destruct o as [|[] [blob|]]; simpl; repeat split; try done;
    by intros [? ?].
Qed.

Lemma url_submit_outcomes_witness :
  let st := {| isDragActive := false; urlInput := "https://example.org/a/cat.png?w=100";
               isUrlLoading := false; showUrlInput := true |} in
  isUrlLoading (handleUrlSubmit false (Responded false None) st).1 = false.
Proof.
  apply (url_submit_outcomes (Responded false None)
           {| isDragActive := false; urlInput := "https://example.org/a/cat.png?w=100";
              isUrlLoading := false; showUrlInput := true |}).
  discriminate.
Defined.

Lemma split_pieces_clean sep s : Forall (λ p, occurs sep p = false) (Js.split sep s).
Proof.
  induction s as [|c s IH]; simpl; [by repeat constructor|].
  destruct (Ascii.eqb c sep) eqn:Hc; [by constructor|].
  destruct (Js.split sep s) as [|p ps]; [by repeat constructor; simpl; rewrite Hc|].
  apply Forall_cons in IH as [Hp Hps]. constructor; [|done]. simpl. by rewrite Hc.
Qed.

Lemma split_pieces_keep c sep s :
  occurs c s = false → Forall (λ p, occurs c p = false) (Js.split sep s).
Proof.
  induction s as [|x s IH]; simpl; [by repeat constructor|].
  intros H. apply orb_false_iff in H as [Hx Hs]. specialize (IH Hs).
  destruct (Ascii.eqb x sep); [by constructor|].
  destruct (Js.split sep s) as [|p ps]; [by repeat constructor; simpl; rewrite Hx|].
  apply Forall_cons in IH as [Hp Hps]. constructor; [|done]. simpl. by rewrite Hx.
Qed.

Lemma first_of_pieces (P : string → Prop) l : l ≠ [] → Forall P l → P (Js.first l).
Proof. intros Hl H. destruct H; [done|]. done. Qed.

(** X28. The file name made from a URL is never empty and contains neither
    a slash nor a question mark. *)
Theorem url_filename_clean (url : string) :
  url_filename url ≠ "" ∧
  occurs "/" (url_filename url) = false ∧
  occurs "?" (url_filename url) = false.
Proof.
  unfold url_filename, pop.
  destruct (last (Js.split "/" url)) as [piece|] eqn:Hl; [|done].
  assert (occurs "/" piece = false) as Hslash.
  { apply last_Some_elem_of in Hl.
    by apply (proj1 (Forall_forall _ _) (split_pieces_clean "/" url)). }
  pose proof (first_of_pieces _ _ (split_nonempty "?" piece)
                (split_pieces_clean "?" piece)) as Hq.
  pose proof (first_of_pieces _ _ (split_nonempty "?" piece)
                (split_pieces_keep "/" "?" piece Hslash)) as Hs.
  unfold or_else, Js.truthy.
  destruct (String.eqb_spec (Js.first (Js.split "?" piece)) "") as [He|He]; simpl; done.
Qed.

Lemma split_app sep a b :
  Js.split sep (a +:+ String sep b) = Js.split sep a ++ Js.split sep b.
Proof.
  induction a as [|c a IH]; simpl.
  - by rewrite Ascii.eqb_refl.
  - destruct (Ascii.eqb c sep); [by rewrite IH|]. rewrite IH.
    destruct (Js.split sep a) as [|p ps] eqn:E; [by apply split_nonempty in E|]. done.
Qed.

Lemma split_clean sep s : occurs sep s = false → Js.split sep s = [s].
Proof.
  induction s as [|c s IH]; simpl; [done|].
  intros H. apply orb_false_iff in H as [Hc Hs]. by rewrite Hc, IH.
Qed.

Lemma occurs_app c a b : occurs c (a +:+ b) = occurs c a || occurs c b.
Proof. induction a as [|x a IH]; simpl; [done|]. by rewrite IH, orb_assoc. Qed.

(** X29. For a URL ending in a non-empty path segment without slash or
    question mark, the file name is that segment, also when a query
    without slashes follows it. *)
Theorem url_filename_is_last_segment (base n q : string) :
  n ≠ "" →
  occurs "/" n = false →
  occurs "?" n = false →
  url_filename (base +:+ "/" +:+ n) = n ∧
  (occurs "/" q = false → url_filename (base +:+ "/" +:+ n +:+ "?" +:+ q) = n).
Proof.
  intros Hne Hs Hq. unfold url_filename, pop. split.
  - change ("/" +:+ n) with (String "/" n).
    rewrite split_app, (split_clean "/" n Hs), last_snoc, (split_clean "?" n Hq).
    unfold or_else. simpl. by rewrite truthy_nonempty.
  - intros Hqs. change ("/" +:+ n +:+ "?" +:+ q) with (String "/" (n +:+ String "?" q)).
    rewrite split_app, (split_clean "/" (n +:+ String "?" q)), last_snoc.
    + rewrite split_app, (split_clean "?" n Hq). simpl.
      unfold or_else. by rewrite truthy_nonempty.
    + rewrite occurs_app, Hs. simpl. done.
Qed.

Lemma url_filename_is_last_segment_witness :
  url_filename "https://example.org/a/cat.png?w=100" = "cat.png".
Proof.
  destruct (url_filename_is_last_segment "https://example.org/a" "cat.png" "w=100")
    as [_ H]; [discriminate | reflexivity | reflexivity |].
  apply H. reflexivity.
Defined.

(** ** More on the virtual file names *)

Lemma has_space_app a b : has_space (a +:+ b) = has_space a || has_space b.
Proof. induction a as [|x a IH]; simpl; [done|]. by rewrite IH, orb_assoc. Qed.

Lemma digit_not_space c : is_digit c = true → Js.is_space c = false.
Proof. by destruct c as [[] [] [] [] [] [] [] []]. Qed.

Lemma digits_no_space s : digits s = true → has_space s = false.
Proof.
  induction s as [|c s IH]; simpl; [done|].
  intros H. apply andb_true_iff in H as [Hc Hs]. by rewrite digit_not_space, IH.
Qed.

Lemma replace_spaces_no_space s : has_space (Js.replace_spaces s) = false.
Proof.
  induction s as [|c s IH]; [done|]. cbn [Js.replace_spaces has_space]. rewrite IH.
  destruct (Js.is_space c) eqn:Hc; [done|]. by rewrite Hc.
Qed.

(** X17. Neither virtual file name contains white space, whatever the
    file's display name is. *)
Theorem virtual_names_have_no_space (i : nat) (s : FileState) (fmt : TargetFormat) :
  has_space (inputName i s) = false ∧ has_space (outputName i fmt) = false.
Proof.
  unfold inputName, outputName.
  rewrite !has_space_app, replace_spaces_no_space, (digits_no_space (pretty i))
    by apply pretty_nat_digits.
  split; [done|]. by destruct fmt.
Qed.

Lemma pending_index i l p : p ∈ pending i l → (i ≤ p.1)%nat.
Proof.
  revert i. induction l as [|s l IH]; intros i; simpl; [by intros ?%elem_of_nil|].
  destruct (decide (status s ≠ Done)).
  - intros [->|H]%elem_of_cons; [done|]. apply IH in H. lia.
  - intros H. apply IH in H. lia.
Qed.

(** X16. Within one call of handleConvertAll no two records to convert
    share a virtual input name or a virtual output name, whatever
    their file names are: the index is part of the name. *)
Theorem pending_names_are_distinct (fmt : TargetFormat) (i : nat) (l : list FileState) :
  NoDup ((λ p, inputName p.1 p.2) <$> pending i l) ∧
  NoDup ((λ p, outputName p.1 fmt) <$> pending i l).
Proof.
  revert i. induction l as [|s l IH]; intros i; simpl; [split; constructor|].
  destruct (IH (S i)) as [Hin Hout].
  destruct (decide (status s ≠ Done)); [|done].
  cbn [fmap list_fmap]. split; constructor; try done.
  - intros (p & Heq & Hp)%list_elem_of_fmap. simpl in Heq.
    apply inputName_index in Heq. apply pending_index in Hp. lia.
  - intros (p & Heq & Hp)%list_elem_of_fmap. simpl in Heq.
    apply outputName_index in Heq. apply pending_index in Hp. lia.
Qed.

(** ** Witnesses *)

Lemma button_calls_are_exclusive_witness :
  (in_flight (run [ClickConvert; ClickConvert; Settle 0; ClickConvert]
                (system_of (one_photo plain_engine))) ≤ 1)%nat.
Proof.
  apply (button_calls_are_exclusive [ClickConvert; ClickConvert; Settle 0; ClickConvert]
           (one_photo plain_engine)).
  - reflexivity.
  - repeat constructor.
Defined.



(** ** Calls in flight on the page *)

Lemma running_count_app l l' :
  running_count (l ++ l') = running_count l + running_count l'.
Proof. unfold running_count. by rewrite List.filter_app, length_app. Qed.

Lemma running_count_none l t c :
  running_count l = 0 → l !! t = Some c → is_running c = false.
Proof.
  unfold running_count. revert t. induction l as [|a l IH]; intros t H Ht; [done|].
  cbn [List.filter] in H. destruct t as [|t]; simpl in Ht.
  - injection Ht as ->. by destruct (is_running c).
  - destruct (is_running a); [done|]. by apply (IH t).
Qed.

Lemma page_react_exclusive ev p :
  keeps_guard ev p = true → page_exclusive p → page_exclusive (page_react ev p).
Proof.
  unfold page_exclusive. intros Hev [Hstale Hlive].
  assert (running_count (page_live p) = 0 →
          ∀ a, mounted a = None →
            running_count (page_stale (after_files_change a p)) = 0 ∧
            match mounted (page_app (after_files_change a p)) with
            | Some c => exclusive (converter_system c (after_files_change a p))
            | None => page_live (after_files_change a p) = []
            end) as Hunmount.
  { intros Hl a Ha. unfold after_files_change. rewrite Ha.
    cbn [page_stale page_app page_live]. rewrite Ha, running_count_app, Hl. split; [lia | done]. }
  destruct ev as [ev|t| |fs]; cbn [page_react keeps_guard] in *.
  - destruct (mounted (page_app p)) as [c|] eqn:Hm; [|by rewrite Hm].
    cbn [page_stale page_app mounted]. split; [done|].
    apply negb_true_iff in Hev.
    exact (react_exclusive ev (converter_system c p) Hev Hlive).
  - destruct (page_stale p !! t) as [[fmt s i rest stage|]|] eqn:Ht; [|done|done].
    by apply (running_count_none _ _ _ Hstale) in Ht.
  - apply Nat.eqb_eq in Hev.
    destruct (mounted (page_app p)) as [c|] eqn:Hm; [|by rewrite Hm].
    exact (Hunmount Hev (clearFiles (page_app p)) eq_refl).
  - destruct fs as [|f fs].
    + apply Nat.eqb_eq in Hev.
      exact (Hunmount Hev (handleFilesSelected [] (page_app p)) eq_refl).
    + unfold after_files_change, handleFilesSelected.
      destruct (mounted (page_app p)) as [c|] eqn:Hm;
        cbn [reconcile mounted page_app page_stale page_live]; (split; [done|]).
      * exact Hlive.
      * unfold exclusive, in_flight. cbn [converter_system calls page_live].
        rewrite Hlive. unfold running_count. simpl. split; [lia | done].
Qed.

(** X3. As long as no call is started by key and the Converter is not
    unmounted (by the clear button, or by an empty selection) while one
    of its calls is in flight, at most one call of handleConvertAll is
    in flight on the page at any time, counting the calls of Converters
    unmounted earlier. *)
Theorem guarded_calls_are_exclusive (evs : list PageEvent) (b : Browser) :
  guard_kept evs (empty_page b) = true →
  (page_in_flight (page_run evs (empty_page b)) ≤ 1)%nat.
Proof.
  assert (page_exclusive (empty_page b)) as H by done.
  revert H. generalize (empty_page b).
  induction evs as [|ev evs IH]; intros p Hp Hevs.
  - destruct Hp as [Hstale Hlive]. unfold page_in_flight. cbn [page_run foldl].
    rewrite Hstale. destruct (mounted (page_app p)).
    + destruct Hlive as [Hle _]. unfold in_flight in Hle. simpl in Hle. lia.
    + rewrite Hlive. simpl. lia.
  - cbn [guard_kept] in Hevs. apply andb_true_iff in Hevs as [Hev Hevs].
    apply (IH (page_react ev p)); [|done]. by apply page_react_exclusive.
Qed.

Lemma guarded_calls_are_exclusive_witness :
  (page_in_flight
     (page_run
        ([ FilesSelected [photo]; InConverter ClickConvert; InConverter ClickConvert ]
         ++ repeat (InConverter (Settle 0)) 6
         ++ [ ClickClear; FilesSelected two_files; InConverter ClickConvert;
              InConverter (Settle 1); InConverter ClickConvert ])
        (empty_page (fresh_browser plain_engine))) ≤ 1)%nat.
Proof.
  apply (guarded_calls_are_exclusive
           ([ FilesSelected [photo]; InConverter ClickConvert; InConverter ClickConvert ]
            ++ repeat (InConverter (Settle 0)) 6
            ++ [ ClickClear; FilesSelected two_files; InConverter ClickConvert;
                 InConverter (Settle 1); InConverter ClickConvert ])
           (fresh_browser plain_engine)).
  vm_compute. reflexivity.
Defined.

(** Without that condition the button alone starts overlapping calls:
    the clear button is not disabled while a call is in flight, and the
    Converter mounted for the next selection starts with isConverting
    false.  Both calls use the virtual names of index 0, and here
    second.jpg ends done with the bytes of first.jpg as its payload. *)
Example clear_while_converting_overlaps :
  let start := [ FilesSelected [ {| name := "first.jpg"; content := Some [x01] |} ];
                 InConverter ClickConvert; ClickClear;
                 FilesSelected [ {| name := "second.jpg"; content := Some [x02] |} ];
                 InConverter ClickConvert ] in
  let p := page_run start (empty_page (fresh_browser plain_engine)) in
  let q := page_run [ SettleStale 0; SettleStale 0;
                      InConverter (Settle 0); InConverter (Settle 0);
                      InConverter (Settle 0); SettleStale 0; InConverter (Settle 0) ] p in
  page_in_flight p = 2 ∧
  (λ c, (λ s, (name (file s), status s)) <$> fileStates c) <$> mounted (page_app q) =
    Some [("second.jpg", Done)] ∧
  blob_data <$> blobStore (browser (page_app q)) !! "blob:0" = Some [x01].
Proof. vm_compute. repeat split. Qed.
